(** * sails-hook-orm-mongoose: the hook's [configure] and [initialize]

    A shallow embedding of the Sails hook that replaces the Waterline ORM by
    Mongoose.  The repository holds the hook twice: [index.js], written with
    single-quoted messages and validating [sails.config.globals.models], and
    a second file whose header calls it the "Funhouse Atelier version",
    written with template literals and without the [globals] validation.
    Both are embedded here, selected by a [version].

    JavaScript values are an inductive type with [typeof], [Array.isArray]
    and truthiness written out; objects the code enumerates with [for..in]
    are association lists in enumeration order, and an assignment to the key
    [__proto__] of such an object adds no property; the process-wide
    [global] object, which is only written by key, is a [gmap].  Effects are explicit:
    a state (the flag closed over by [cb], [sails.models], [global], the
    model definitions the hook mutates) is passed along, and every call
    into a collaborator, every log line and every call of the external
    callback is an event of the run. *)

From Stdlib Require Import Ascii.
From stdpp Require Import base option list strings gmap.

Set Default Proof Using "Type".

(** ** Text *)

Module Text.

Definition nl : string := String (Ascii.ascii_of_nat 10) EmptyString.
Definition dq : string := String (Ascii.ascii_of_nat 34) EmptyString.

Fixpoint spaces (n : nat) : string :=
  match n with
  | O => EmptyString
  | S n' => String (Ascii.ascii_of_nat 32) (spaces n')
  end.

(** [quoted s] is [s] between two double quotes. *)
Definition quoted (s : string) : string := dq +:+ s +:+ dq.

(** A template literal that opens with a line break, holds [body] and
    closes on a line of its own, indented by [indent] blanks. *)
Definition template (body : string) (indent : nat) : string :=
  nl +:+ body +:+ nl +:+ spaces indent.

(** [ends_with s t]: [s] is a suffix of [t]. *)
Definition ends_with (s t : string) : Prop := exists p, t = p +:+ s.

(** [mentions s t]: [s] occurs in [t]. *)
Definition mentions (s t : string) : Prop := exists p q, t = p +:+ s +:+ q.

(** [blank s]: [s] holds nothing but spaces and line breaks. *)
Fixpoint blank (s : string) : bool :=
  match s with
  | EmptyString => true
  | String c s' =>
      (bool_decide (c = Ascii.ascii_of_nat 32)
       || bool_decide (c = Ascii.ascii_of_nat 10)) && blank s'
  end.

(** The last character of a text. *)
Fixpoint lastChar (s : string) : option ascii :=
  match s with
  | EmptyString => None
  | String c EmptyString => Some c
  | String _ s' => lastChar s'
  end.

(** [strip key t]: what follows [key] at the start of [t]. *)
Fixpoint strip (key t : string) : option string :=
  match key, t with
  | EmptyString, _ => Some t
  | String a key', String b t' =>
      if bool_decide (a = b) then strip key' t' else None
  | String _ _, EmptyString => None
  end.

(** [search key t]: the text before and after the first [key] in [t]. *)
Fixpoint search (key t : string) : option (string * string) :=
  match strip key t with
  | Some q => Some (EmptyString, q)
  | None =>
      match t with
      | EmptyString => None
      | String c t' =>
          match search key t' with
          | Some (p, q) => Some (String c p, q)
          | None => None
          end
      end
  end.

End Text.

Import Text.

(** ** JavaScript values *)

(** An [Error] object: the two properties the hook reads and rewrites. *)
Record Error := mkErr { message : string; stack : string }.

#[warnings="-register-all"]
Inductive value : Type :=
| VUndefined
| VNull
| VBool (b : bool)
| VNum (n : Z)
| VStr (s : string)
| VDict (fields : list (string * value))
| VArray (items : list value)
| VFunction (f : nat)
| VError (e : Error)
| VSchema (s : nat)
| VModel (ctor : nat) (globalId identity : string).

(** [VFunction f] is a user function, named by its index [f] in the
    environment; [VSchema s] a Mongoose Schema instance; [VModel c g i] the
    Model constructor [c] that [mongoose.model] returned, carrying the
    [globalId] and [identity] properties the hook sets on it. *)

Definition typeof (v : value) : string :=
  match v with
  | VUndefined => "undefined"
  | VNull => "object"
  | VBool _ => "boolean"
  | VNum _ => "number"
  | VStr _ => "string"
  | VDict _ => "object"
  | VArray _ => "object"
  | VFunction _ => "function"
  | VError _ => "object"
  | VSchema _ => "object"
  | VModel _ _ _ => "function"
  end.

Definition isArray (v : value) : bool :=
  match v with
  | VArray _ => true
  | _ => false
  end.

(** What [if (v)] tests. *)
Definition truthy (v : value) : bool :=
  match v with
  | VUndefined | VNull => false
  | VBool b => b
  | VNum n => negb (Z.eqb n 0)
  | VStr s => negb (String.eqb s EmptyString)
  | _ => true
  end.

(** [a === b] on the strings [typeof] yields. *)
Definition seq (a b : string) : bool := String.eqb a b.
Definition sne (a b : string) : bool := negb (String.eqb a b).

(** ** Objects enumerated by [for..in]: association lists

    The list is the enumeration order, which for keys that are no array
    indices is the order of insertion. *)

Module Dict.

Definition t (A : Type) : Type := list (string * A).

Fixpoint get {A} (k : string) (d : t A) : option A :=
  match d with
  | [] => None
  | (k', a) :: d' => if String.eqb k k' then Some a else get k d'
  end.

(** [set k a d] makes [a] the entry of [k]: an existing entry keeps its
    place, a new one goes last. *)
Fixpoint set {A} (k : string) (a : A) (d : t A) : t A :=
  match d with
  | [] => [(k, a)]
  | (k', a') :: d' =>
      if String.eqb k k' then (k', a) :: d' else (k', a') :: set k a d'
  end.

Definition keys {A} (d : t A) : list string := map fst d.

(** The one key an assignment does not store under. *)
Definition proto : string := "__proto__".

(** [d[k] = a] on an object made by [{}].  For every key but [__proto__]
    this stores the property.  For [__proto__] the engine runs the setter
    inherited from [Object.prototype]: the object gets no property of its
    own, and its prototype becomes [a] when that is an object or [null].
    The values assigned here are Mongoose schemas and models; they are
    taken to bring no enumerable properties along, so that [for..in] over
    the object still yields its own keys, in [keys] order. *)
Definition assign {A} (k : string) (a : A) (d : t A) : t A :=
  if String.eqb k proto then d else set k a d.

End Dict.

(** ** Completions *)

Inductive outcome (A : Type) : Type :=
| Ok (a : A)
| Throw (v : value).
Arguments Ok {A} a.
Arguments Throw {A} v.

Definition obind {A B} (o : outcome A) (k : A -> outcome B) : outcome B :=
  match o with
  | Ok a => k a
  | Throw v => Throw v
  end.

(** What the JavaScript engine supplies: the stack text of a fresh
    [new Error(m)], and the [TypeError] raised on reading property [k] of
    [null] or [undefined]. *)
Record Engine := mkEngine {
  stackOf : string -> string;
  nullish : value -> string -> Error
}.

Definition newError (en : Engine) (m : string) : value :=
  VError (mkErr m (stackOf en m)).

(** [v.k], for the values the hook reads a property of. *)
Definition getProp (en : Engine) (v : value) (k : string) : outcome value :=
  match v with
  | VUndefined | VNull => Throw (VError (nullish en v k))
  | VDict fields => Ok (default VUndefined (Dict.get k fields))
  | VArray items =>
      Ok (if String.eqb k "length" then VNum (Z.of_nat (length items))
          else VUndefined)
  | VError e =>
      Ok (if String.eqb k "message" then VStr (message e)
          else if String.eqb k "stack" then VStr (stack e)
          else VUndefined)
  | VModel _ g i =>
      Ok (if String.eqb k "globalId" then VStr g
          else if String.eqb k "identity" then VStr i
          else VUndefined)
  | _ => Ok VUndefined
  end.

(** ** Configuration and messages *)

Inductive version := Classic | Atelier.

(** [sails.config], as far as the hook reads it. *)
Record Config := mkConfig {
  globals : value;          (* sails.config.globals *)
  uri : value;              (* sails.config.mongoose.uri *)
  connectionOpts : value;   (* sails.config.mongoose.connectionOpts *)
  pathsModels : value       (* sails.config.paths.models *)
}.

Module Msg.

Definition globalsModels : string :=
  "If provided, `sails.config.globals.models` must be either `true` or `false`." +:+ nl +:+
  "If `true`, instantiated Mongoose models will be exposed as global variables.".

Definition uri (ver : version) : string :=
  match ver with
  | Classic =>
      "Expected Mongo connection URI (a string) to be provided as `sails.config.mongoose.uri`, but the provided Mongo URI is invalid." +:+ nl +:+
      "See https://docs.mongodb.org/manual/reference/connection-string/ for help."
  | Atelier =>
      template
        ("Expected Mongo connection URI (a string) to be provided as " +:+ quoted "sails.config.mongoose.uri" +:+ "," +:+ nl +:+
         "but the provided Mongo URI is invalid." +:+ nl +:+
         "See https://docs.mongodb.org/manual/reference/connection-string/ for help.") 8
  end.

Definition connectionOpts (ver : version) : string :=
  match ver with
  | Classic =>
      "If provided, `sails.config.mongoose.connectionOpts` must be a dictionary of additional options to pass to Mongoose." +:+ nl +:+
      "See http://mongoosejs.com/docs/connections.html for a full list of available options."
  | Atelier =>
      template
        ("If provided, " +:+ quoted "sails.config.mongoose.connectionOpts" +:+ " must be a dictionary of additional options to pass to Mongoose." +:+ nl +:+
         "See http://mongoosejs.com/docs/connections.html for a full list of available options.") 8
  end.

Definition calledAgain (ver : version) : string :=
  match ver with
  | Classic =>
      "`initialize` function of Mongoose hook (ORM hook override) was called again, but that should never happen more than once!"
  | Atelier =>
      template
        (quoted "initialize" +:+ " function of Mongoose hook (ORM hook override) was called again, but that" +:+ nl +:+
         "should never happen more than once!") 12
  end.

Definition crashing (ver : version) : string :=
  match ver with
  | Classic =>
      "Proceeding to crash the server... (this is to avoid creating any weird race conditions that could potentially mess up your data)"
  | Atelier =>
      template
        ("Proceeding to crash the server... (this is to avoid creating any weird race conditions" +:+ nl +:+
         "that could potentially mess up your data)") 12
  end.

Definition connected : string := "Connected to MongoDB database".
Definition connectFailed : string := "Failed to connect to MongoDB database".
Definition loading : string := "Loading the app's models from `%s`...".

Definition invalidSchema (ver : version) (identity : string) : string :=
  match ver with
  | Classic =>
      "Invalid `schema` provided in model (`" +:+ identity +:+
      "`).  If provided, `schema` must be a dictionary."
  | Atelier =>
      template
        ("Invalid " +:+ quoted "schema" +:+ " provided in model " +:+ quoted identity +:+ "." +:+ nl +:+
         "If provided, " +:+ quoted "schema" +:+ " must be a dictionary.") 16
  end.

Definition invalidInterceptor (ver : version) (identity : string) : string :=
  match ver with
  | Classic =>
      "Invalid `constructSchema` interceptor provided in model (`" +:+ identity +:+
      "`).  If provided, `constructSchema` must be a function."
  | Atelier =>
      template
        ("Invalid " +:+ quoted "constructSchema" +:+ " interceptor provided in model " +:+ quoted identity +:+ "." +:+ nl +:+
         "If provided, " +:+ quoted "constructSchema" +:+ " must be a function.") 16
  end.

(** What precedes the original text when an interceptor's error is
    rewritten, and what follows it. *)
Definition interceptorPrefix (ver : version) (identity : string) : string :=
  match ver with
  | Classic =>
      "Encountered an error when running `constructSchema` interceptor provided for model (`" +:+ identity +:+
      "`). Details:" +:+ nl
  | Atelier =>
      nl +:+ "Encountered an error when running " +:+ quoted "constructSchema" +:+ " interceptor provided for model" +:+ nl +:+
      quoted identity +:+ ". Details:" +:+ nl
  end.

Definition interceptorTrailer (ver : version) : string :=
  match ver with
  | Classic => EmptyString
  | Atelier => nl +:+ spaces 18
  end.

End Msg.

(** ** [configure] *)

(** [configure()] reads [sails.config] and has no other effect: it
    returns, or throws. *)
Definition configure (ver : version) (en : Engine) (cfg : Config) : outcome unit :=
  let rest :=
    if sne (typeof (uri cfg)) "string" then
      Throw (newError en (Msg.uri ver))
    else if sne (typeof (connectionOpts cfg)) "object"
            || isArray (connectionOpts cfg) then
      Throw (newError en (Msg.connectionOpts ver))
    else Ok tt in
  match ver with
  | Classic =>
      obind
        (if seq (typeof (globals cfg)) "object" then
           obind (getProp en (globals cfg) "models")
                 (fun m => Ok (sne (typeof m) "boolean"))
         else Ok false)
        (fun bad =>
           if bad then Throw (newError en Msg.globalsModels) else rest)
  | Atelier => rest
  end.

(** ** Model definitions, model handles and the collaborators *)

(** A model definition, as the module loader hands it over.  [schema] and
    [constructSchema] are whatever the model file exports under these names
    ([VUndefined] when it exports nothing); [globalId] is the display name
    the loader derives from the file name. *)
Module Def.
Record t := mk { schema : value; constructSchema : value; globalId : string }.

Definition withSchema (s : value) (d : t) : t :=
  mk s (constructSchema d) (globalId d).
End Def.

(** A registered model: the constructor [mongoose.model] returned, with the
    two properties the hook sets on it. *)
Module Model.
Record t := mk { ctor : nat; globalId : string; identity : string }.

Definition toValue (m : t) : value := VModel (ctor m) (globalId m) (identity m).
End Model.

(** What a call into foreign code does: it returns, or throws an [Error]. *)
Inductive result (A : Type) : Type :=
| Returns (a : A)
| Throws (e : Error).
Arguments Returns {A} a.
Arguments Throws {A} e.

(** How [sails.modules.loadModels(modulesLoaded)] behaves on a single path:
    it throws before calling back, or it calls [modulesLoaded(err, modules)]
    once.  [sync] tells whether the call happens inside [loadModels], so
    that an exception leaving [modulesLoaded] reaches the [try] around
    [loadModels], or in a later turn, where nothing catches it. *)
Inductive loading : Type :=
| LoaderThrows (e : Error)
| LoaderCalls (sync : bool) (err : value) (mods : Dict.t Def.t).

(** The collaborators.  Mongoose, the module loader and the interceptors
    are taken to throw [Error] objects, whose [message] and [stack] the hook
    reads and rewrites; the external callback is the application's own code
    and throws any value.  All of them leave the hook's own state alone,
    and [mongoose.model] returns a constructor of its own at each call. *)
Record World := mkWorld {
  engine : Engine;
  (* sails.mongoose.connect(uri, opts): [None] resolves, [Some e] rejects *)
  connect : value -> value -> option Error;
  loadModels : loading;
  (* new sails.mongoose.Schema(dict) *)
  newSchema : value -> result nat;
  (* f(dict, sails) for a function value f *)
  interceptor : value -> value -> result value;
  (* sails.mongoose.model(name, schema) *)
  newModel : string -> value -> result nat;
  (* the external callback _cb(err): [None] returns, [Some v] throws v *)
  external : value -> option value
}.

(** ** State, events and runs *)

Inductive event : Type :=
| LogError (m : string)
| LogWarn (m : string)
| LogInfo (m : string)
| LogVerbose (m : string) (arg : value)
| ConnectCalled (uri opts : value)
| LoadModelsCalled
| SchemaCalled (identity : string) (dict : value)
| InterceptorCalled (identity : string) (f dict : value)
| ModelCalled (name : string) (schemaObj : value)
| CalledBack (err : value)
| Uncaught (v : value).

Record State := mkState {
  mongooseSet : bool;                  (* sails.mongoose assigned *)
  models : option (Dict.t Model.t);    (* sails.models; None: never assigned *)
  global : gmap string value;          (* the process-wide global object *)
  modules : Dict.t Def.t;              (* the loader's dictionary *)
  hasAlreadyTriggeredCallback : bool   (* false: still undefined *)
}.

(** A run: how it completed, the state it left, the events it produced. *)
Record Run (A : Type) := mkRun {
  out : outcome A;
  final : State;
  events : list event
}.
Arguments mkRun {A} out final events.
Arguments out {A} r.
Arguments final {A} r.
Arguments events {A} r.

Definition M (A : Type) : Type := State -> Run A.

Definition ret {A} (a : A) : M A := fun st => mkRun (Ok a) st [].
Definition throw {A} (v : value) : M A := fun st => mkRun (Throw v) st [].

(** [prepend es r]: the run [r], after the events [es]. *)
Definition prepend {A} (es : list event) (r : Run A) : Run A :=
  mkRun (out r) (final r) (es ++ events r).
Arguments prepend {A} es !r /.

Definition bind {A B} (m : M A) (k : A -> M B) : M B :=
  fun st =>
    match m st with
    | mkRun (Ok a) st' es => prepend es (k a st')
    | mkRun (Throw v) st' es => mkRun (Throw v) st' es
    end.

Definition tryCatch {A} (m : M A) (h : value -> M A) : M A :=
  fun st =>
    match m st with
    | mkRun (Ok a) st' es => mkRun (Ok a) st' es
    | mkRun (Throw v) st' es => prepend es (h v st')
    end.

Definition liftO {A} (o : outcome A) : M A := fun st => mkRun o st [].

Declare Scope hook_scope.
Delimit Scope hook_scope with hook.
Notation "x <~ m ;; k" := (bind m (fun x => k))
  (at level 100, m at next level, right associativity) : hook_scope.
Notation "m ;; k" := (bind m (fun _ => k))
  (at level 100, right associativity) : hook_scope.
Open Scope hook_scope.

Definition emit (es : list event) : M unit := fun st => mkRun (Ok tt) st es.

Definition getState : M State := fun st => mkRun (Ok st) st [].

Definition withFlag (b : bool) (st : State) : State :=
  mkState (mongooseSet st) (models st) (global st) (modules st) b.

Definition withModules (d : Dict.t Def.t) (st : State) : State :=
  mkState (mongooseSet st) (models st) (global st) d
          (hasAlreadyTriggeredCallback st).

Definition setFlag (b : bool) : M unit :=
  fun st => mkRun (Ok tt) (withFlag b st) [].

Definition setMongoose : M unit :=
  fun st =>
    mkRun (Ok tt)
          (mkState true (models st) (global st) (modules st)
                   (hasAlreadyTriggeredCallback st)) [].

Definition setModels (r : Dict.t Model.t) : M unit :=
  fun st =>
    mkRun (Ok tt)
          (mkState (mongooseSet st) (Some r) (global st) (modules st)
                   (hasAlreadyTriggeredCallback st)) [].

(** [global[k] = v]: as with any object, the key [__proto__] stores
    nothing. *)
Definition assignGlobal (k : string) (v : value) (g : gmap string value)
  : gmap string value :=
  if String.eqb k Dict.proto then g else <[k:=v]> g.

Definition setGlobal (k : string) (v : value) : M unit :=
  fun st =>
    mkRun (Ok tt)
          (mkState (mongooseSet st) (models st) (assignGlobal k v (global st))
                   (modules st) (hasAlreadyTriggeredCallback st)) [].

Definition setModules (d : Dict.t Def.t) : M unit :=
  fun st => mkRun (Ok tt) (withModules d st) [].

(** ** The guarded callback [cb] *)

Definition cb (ver : version) (w : World) (err : value) : M unit :=
  st <~ getState ;;
  if hasAlreadyTriggeredCallback st then
    if truthy err then
      emit [LogError (Msg.calledAgain ver); LogError (Msg.crashing ver)] ;;
      throw err
    else
      emit [LogWarn (Msg.calledAgain ver)] ;;
      ret tt
  else
    setFlag true ;;
    emit [CalledBack err] ;;
    match external w err with
    | None => ret tt
    | Some v => throw v
    end.

(** ** Compiling the schemas *)

(** The [catch] around the interceptor call: message and stack are
    rewritten in place and the same object is thrown again. *)
Definition rewrap (ver : version) (identity : string) (e : Error) : Error :=
  mkErr (Msg.interceptorPrefix ver identity +:+ message e +:+ Msg.interceptorTrailer ver)
        (Msg.interceptorPrefix ver identity +:+ stack e +:+ Msg.interceptorTrailer ver).

(** [if (typeof def.schema !== 'object' || Array.isArray(def.schema))] *)
Definition schemaRejected (s : value) : bool :=
  sne (typeof s) "object" || isArray s.

(** The body of [for (const identity in modules)]; [schemas] is the
    dictionary filled so far.  [def.schema = {}] writes into the definition
    itself, the object the loader's dictionary holds under [identity]: its
    entry there is the definition with the new [schema]. *)
Definition compileDef (ver : version) (w : World)
    (identity : string) (schemas : Dict.t value) : M (Dict.t value) :=
  st <~ getState ;;
  match Dict.get identity (modules st) with
  | None => throw (VError (nullish (engine w) VUndefined "schema"))
  | Some def =>
      def <~ (if seq (typeof (Def.schema def)) "undefined" then
                let def' := Def.withSchema (VDict []) def in
                setModules (Dict.set identity def' (modules st)) ;;
                ret def'
              else ret def) ;;
      if schemaRejected (Def.schema def) then
        throw (newError (engine w) (Msg.invalidSchema ver identity))
      else if seq (typeof (Def.constructSchema def)) "undefined" then
        emit [SchemaCalled identity (Def.schema def)] ;;
        match newSchema w (Def.schema def) with
        | Returns s => ret (Dict.assign identity (VSchema s) schemas)
        | Throws e => throw (VError e)
        end
      else if seq (typeof (Def.constructSchema def)) "function" then
        emit [InterceptorCalled identity (Def.constructSchema def) (Def.schema def)] ;;
        match interceptor w (Def.constructSchema def) (Def.schema def) with
        | Returns s => ret (Dict.assign identity s schemas)
        | Throws e => throw (VError (rewrap ver identity e))
        end
      else
        throw (newError (engine w) (Msg.invalidInterceptor ver identity))
  end.

Fixpoint compileSchemas (ver : version) (w : World)
    (identities : list string) (schemas : Dict.t value) : M (Dict.t value) :=
  match identities with
  | [] => ret schemas
  | identity :: rest =>
      schemas' <~ compileDef ver w identity schemas ;;
      compileSchemas ver w rest schemas'
  end.

(** ** Registering the models *)

(** The body of [for (const identity in schemas)]. *)
Definition registerModel (w : World) (identity : string) (schemaObj : value) : M unit :=
  st <~ getState ;;
  match Dict.get identity (modules st) with
  | None => throw (VError (nullish (engine w) VUndefined "globalId"))
  | Some def =>
      emit [ModelCalled (Def.globalId def) schemaObj] ;;
      match newModel w (Def.globalId def) schemaObj with
      | Returns c =>
          setModels (Dict.assign identity (Model.mk c (Def.globalId def) identity)
                                 (default [] (models st)))
      | Throws e => throw (VError e)
      end
  end.

Fixpoint registerModels (w : World) (schemas : Dict.t value) : M unit :=
  match schemas with
  | [] => ret tt
  | (identity, schemaObj) :: rest =>
      registerModel w identity schemaObj ;;
      registerModels w rest
  end.

(** [for (const identity in sails.models) global[Model.globalId] = Model] *)
Fixpoint exposeModels (registry : Dict.t Model.t) : M unit :=
  match registry with
  | [] => ret tt
  | (_, m) :: rest =>
      setGlobal (Model.globalId m) (Model.toValue m) ;;
      exposeModels rest
  end.

(** [typeof sails.config.globals === 'object' && sails.config.globals.models] *)
Definition wantsGlobals (en : Engine) (cfg : Config) : outcome bool :=
  if seq (typeof (globals cfg)) "object" then
    obind (getProp en (globals cfg) "models") (fun g => Ok (truthy g))
  else Ok false.

Definition exposeGlobals (w : World) (cfg : Config) : M unit :=
  wanted <~ liftO (wantsGlobals (engine w) cfg) ;;
  if wanted : bool then
    st <~ getState ;;
    exposeModels (default [] (models st))
  else ret tt.

(** ** [modulesLoaded] and [initialize] *)

(** The [try] block of [modulesLoaded], up to [return cb()]. *)
Definition loadedBody (ver : version) (w : World) (cfg : Config) : M unit :=
  st <~ getState ;;
  schemas <~ compileSchemas ver w (Dict.keys (modules st)) [] ;;
  setModels [] ;;
  registerModels w schemas ;;
  exposeGlobals w cfg.

Definition modulesLoaded (ver : version) (w : World) (cfg : Config)
    (err : value) (mods : Dict.t Def.t) : M unit :=
  setModules mods ;;
  if truthy err then cb ver w err
  else
    tryCatch (loadedBody ver w cfg ;; cb ver w VUndefined)
             (fun e => cb ver w e).

Definition initialize (ver : version) (w : World) (cfg : Config) : M unit :=
  setFlag false ;;
  tryCatch
    (setMongoose ;;
     emit [ConnectCalled (uri cfg) (connectionOpts cfg)] ;;
     match connect w (uri cfg) (connectionOpts cfg) with
     | None => emit [LogInfo Msg.connected]
     | Some e =>
         emit [LogError Msg.connectFailed] ;;
         throw (newError (engine w) (message e))
     end ;;
     emit [LogVerbose Msg.loading (pathsModels cfg)] ;;
     emit [LoadModelsCalled] ;;
     match loadModels w with
     | LoaderThrows e => throw (VError e)
     | LoaderCalls sync err mods =>
         tryCatch (modulesLoaded ver w cfg err mods)
                  (fun v => if sync : bool then throw v else emit [Uncaught v])
     end)
    (fun e => cb ver w e).

(** The arguments the external callback was called with, in order. *)
Fixpoint callbacks (es : list event) : list value :=
  match es with
  | [] => []
  | CalledBack v :: es' => v :: callbacks es'
  | _ :: es' => callbacks es'
  end.

(** Events that reach no collaborator: log lines and uncaught exceptions. *)
Definition quiet (e : event) : bool :=
  match e with
  | LogError _ | LogWarn _ | LogInfo _ | LogVerbose _ _ | Uncaught _ => true
  | _ => false
  end.

(** Calls that compile a schema or build a model. *)
Definition builds (e : event) : bool :=
  match e with
  | SchemaCalled _ _ | InterceptorCalled _ _ _ | ModelCalled _ _ => true
  | _ => false
  end.

(** ** The vocabulary of the statements *)

Module Key.
Definition globalsModels : string := "sails.config.globals.models".
Definition uri : string := "sails.config.mongoose.uri".
Definition connectionOpts : string := "sails.config.mongoose.connectionOpts".
End Key.

(** The malformed values: a connection URI that is not a string, connection
    options that are an array, and, with a [globals] dictionary present, a
    [models] flag that is not a boolean. *)
Definition badUri (cfg : Config) : Prop := typeof (uri cfg) <> "string".

Definition arrayOpts (cfg : Config) : Prop := isArray (connectionOpts cfg) = true.

Definition badFlag (cfg : Config) : Prop :=
  exists fields,
    globals cfg = VDict fields /\
    typeof (default VUndefined (Dict.get "models" fields)) <> "boolean".

(** [complaint ver en cfg m]: [m] is the message of one of the checks that
    [cfg] fails in version [ver], and names the key that check is about.
    The check of the flag fails when [globals] is an object whose [models]
    is read and is not a boolean. *)
Definition complaint (ver : version) (en : Engine) (cfg : Config) (m : string)
  : Prop :=
  (m = Msg.globalsModels /\ mentions Key.globalsModels m /\
   ver = Classic /\ typeof (globals cfg) = "object" /\
   exists g, getProp en (globals cfg) "models" = Ok g /\ typeof g <> "boolean")
  \/ (m = Msg.uri ver /\ mentions Key.uri m /\ badUri cfg)
  \/ (m = Msg.connectionOpts ver /\ mentions Key.connectionOpts m /\
      (typeof (connectionOpts cfg) <> "object" \/ arrayOpts cfg)).

(** A definition after [if (typeof def.schema === 'undefined') def.schema = {}],
    and the state that assignment leaves. *)
Definition defaulted (d : Def.t) : Def.t :=
  if seq (typeof (Def.schema d)) "undefined"
  then Def.withSchema (VDict []) d else d.

Definition afterDefault (identity : string) (d : Def.t) (st : State) : State :=
  if seq (typeof (Def.schema d)) "undefined"
  then withModules (Dict.set identity (defaulted d) (modules st)) st else st.

(** [Emits P m]: every event of [m] satisfies [P]. *)
Definition Emits {A} (P : event -> bool) (m : M A) : Prop :=
  forall st, forallb P (events (m st)) = true.

(** [Keeps f m]: [m] leaves the component [f] of the state as it was. *)
Definition Keeps {A X : Type} (f : State -> X) (m : M A) : Prop :=
  forall st, f (final (m st)) = f st.

(** [Raises m]: whatever [m] throws is an [Error] object. *)
Definition Raises {A} (m : M A) : Prop :=
  forall st v, out (m st) = Throw v -> exists e, v = VError e.

(** The kinds of events each stage produces. *)
Definition compiling (e : event) : bool :=
  match e with
  | SchemaCalled _ _ | InterceptorCalled _ _ _ => true
  | _ => false
  end.

Definition modelling (e : event) : bool :=
  match e with
  | ModelCalled _ _ => true
  | _ => false
  end.

Definition nothing (e : event) : bool := false.


(** The state in which the [try] block of [modulesLoaded] starts. *)
Definition loadedState (mods : Dict.t Def.t) (st : State) : State :=
  mkState true (models st) (global st) mods false.

(** What [modulesLoaded] hands to [cb] once its [try] block has run. *)
Definition verdict (b : Run unit) : value :=
  match out b with
  | Ok _ => VUndefined
  | Throw t => t
  end.

(** The events of a run whose connection succeeds, up to the call of the
    loader. *)
Definition upToLoading (cfg : Config) : list event :=
  [ConnectCalled (uri cfg) (connectionOpts cfg);
   LogInfo Msg.connected;
   LogVerbose Msg.loading (pathsModels cfg);
   LoadModelsCalled].

(** [handleOf mods identity m]: [m] is a handle for the model [identity] of
    the loader's dictionary [mods]: it carries that identity and the
    display name of that definition. *)
Definition handleOf (mods : Dict.t Def.t) (identity : string) (m : Model.t) : Prop :=
  Model.identity m = identity /\
  exists d, Dict.get identity mods = Some d /\ Model.globalId m = Def.globalId d.

(** [sameIds d d']: [d'] has the identities and display names of [d]. *)
Definition sameIds (d d' : Dict.t Def.t) : Prop :=
  forall k, Def.globalId <$> Dict.get k d' = Def.globalId <$> Dict.get k d.

(** The display names of a registry, and the bindings its exposure adds. *)
Definition displayNames (reg : Dict.t Model.t) : list string :=
  map (fun p => Model.globalId (snd p)) reg.

Fixpoint bindAll (reg : Dict.t Model.t) (g : gmap string value) : gmap string value :=
  match reg with
  | [] => g
  | (_, m) :: rest =>
      bindAll rest (assignGlobal (Model.globalId m) (Model.toValue m) g)
  end.




(** ** [defaults] *)

(** What the hook declares as its defaults: in [index.js] a [globals]
    dictionary and the [mongoose] dictionary, in the other version the
    [mongoose] dictionary alone ([defaultGlobals] is then [VUndefined]). *)
Record Defaults := mkDefaults {
  defaultGlobals : value;
  defaultUri : value;
  defaultConnectionOpts : value
}.

(** The [defaults] dictionary is built when the hook is: its [uri] is read
    off [sails.config.custom.mongo.connectionUri] then, with [custom] the
    value of [sails.config.custom]. *)
Definition defaults (ver : version) (en : Engine) (custom : value) : outcome Defaults :=
  obind (getProp en custom "mongo") (fun mongo =>
  obind (getProp en mongo "connectionUri") (fun connectionUri =>
    Ok match ver with
       | Classic =>
           mkDefaults (VDict [("models", VBool true)])
                      connectionUri
                      (VDict [("useNewUrlParser", VBool true);
                              ("useUnifiedTopology", VBool true);
                              ("useCreateIndex", VBool true)])
       | Atelier => mkDefaults VUndefined connectionUri (VDict [])
       end)).

(** [sails.config], as the hook reads it, when nothing but the defaults
    sets the keys the hook declares. *)
Definition fromDefaults (d : Defaults) (paths : value) : Config :=
  mkConfig (defaultGlobals d) (defaultUri d) (defaultConnectionOpts d) paths.

(** ** Calling [cb] again and again *)

(** [cb] called with each of [errs] in turn, each call on its own, as
    event handlers would: what one call throws does not stop the next. *)
Fixpoint cbEach (ver : version) (w : World) (errs : list value) : M unit :=
  match errs with
  | [] => ret tt
  | err :: rest =>
      tryCatch (cb ver w err) (fun _ => ret tt) ;;
      cbEach ver w rest
  end.

(** ** More vocabulary *)

(** The calls of [mongoose.connect] in a run, in order. *)
Fixpoint connects (es : list event) : list (value * value) :=
  match es with
  | [] => []
  | ConnectCalled u o :: es' => (u, o) :: connects es'
  | _ :: es' => connects es'
  end.

(** How often the loader was called. *)
Fixpoint loads (es : list event) : nat :=
  match es with
  | [] => 0
  | LoadModelsCalled :: es' => S (loads es')
  | _ :: es' => loads es'
  end.

(** Events that come before the external callback is called on a run that
    goes well: everything but the connection attempt that opens the run,
    the callback itself, and what only a second firing brings. *)
Definition early (e : event) : bool :=
  match e with
  | ConnectCalled _ _ | CalledBack _ | Uncaught _ | LogWarn _ => false
  | _ => true
  end.

(** What can follow the external callback: the guard's log lines and an
    exception nobody catches. *)
Definition late (e : event) : bool :=
  match e with
  | LogError _ | LogWarn _ | Uncaught _ => true
  | _ => false
  end.

(** [staged es]: once a model has been built, no schema is compiled. *)
Fixpoint staged (es : list event) : bool :=
  match es with
  | [] => true
  | e :: es' =>
      if modelling e then forallb (fun e' => negb (compiling e')) es'
      else staged es'
  end.

(** What the loop body asks of a definition before it compiles it: once a
    missing schema has been filled in, a [schema] that passes the shape
    check, and a [constructSchema] that is absent or a function. *)
Definition wellFormed (d : Def.t) : bool :=
  negb (schemaRejected (Def.schema (defaulted d)))
  && (seq (typeof (Def.constructSchema d)) "undefined"
      || seq (typeof (Def.constructSchema d)) "function").

(** [compiledBy w d v]: [v] is what the loop body compiles the definition
    [d] to: the schema [new Schema] builds from its dictionary, or, with a
    [constructSchema], what that returns. *)
Definition compiledBy (w : World) (d : Def.t) (v : value) : Prop :=
  if seq (typeof (Def.constructSchema d)) "undefined" then
    exists n, newSchema w (Def.schema (defaulted d)) = Returns n /\ v = VSchema n
  else
    interceptor w (Def.constructSchema d) (Def.schema (defaulted d)) = Returns v.

(** The identities of the definitions a run compiles, in the order in
    which it compiles them. *)
Fixpoint compiledIds (es : list event) : list string :=
  match es with
  | [] => []
  | SchemaCalled identity _ :: es' => identity :: compiledIds es'
  | InterceptorCalled identity _ _ :: es' => identity :: compiledIds es'
  | _ :: es' => compiledIds es'
  end.

(** ** Samples

    A concrete engine, world and configuration, used where a statement is
    evaluated on an explicit input. *)

Module Sample.

Definition en : Engine :=
  mkEngine (fun m => "Error: " +:+ m)
           (fun _ k => mkErr ("Cannot read properties of null (reading '" +:+ k +:+ "')")
                             "TypeError").

Definition boom : Error := mkErr "boom" "Error: boom".

(** Mongoose connects, builds schema 7 and model 3 from anything; every
    interceptor throws [boom]; the external callback returns. *)
Definition world (l : loading) : World :=
  mkWorld en (fun _ _ => None) l
          (fun _ => Returns 7) (fun _ _ => Throws boom) (fun _ _ => Returns 3)
          (fun _ => None).

Definition cfg (g : value) : Config :=
  mkConfig g (VStr "mongodb://localhost/app") (VDict []) (VStr "api/models").

Definition exposing : value := VDict [("models", VBool true)].
Definition hiding : value := VDict [("models", VBool false)].

Definition fresh : State := mkState false None ∅ [] false.

(** A state in which [cb] has already fired. *)
Definition tripped : State := mkState true None ∅ [] true.

Definition pet (s : value) : Dict.t Def.t := [("pet", Def.mk s VUndefined "Pet")].

Definition custom : Dict.t Def.t := [("pet", Def.mk (VDict []) (VFunction 0) "Pet")].

Definition two : Dict.t Def.t :=
  [("alpha", Def.mk (VDict []) VUndefined "Alpha");
   ("beta", Def.mk VUndefined VUndefined "Beta")].

(** A Mongoose whose [Schema] constructor throws [boom], and one whose
    [model] does. *)
Definition noSchema (l : loading) : World :=
  mkWorld en (fun _ _ => None) l
          (fun _ => Throws boom) (fun _ _ => Throws boom) (fun _ _ => Returns 3)
          (fun _ => None).

Definition noModel (l : loading) : World :=
  mkWorld en (fun _ _ => None) l
          (fun _ => Returns 7) (fun _ _ => Throws boom) (fun _ _ => Throws boom)
          (fun _ => None).

(** A definition whose [constructSchema] is a number. *)
Definition odd : Dict.t Def.t := [("pet", Def.mk VUndefined (VNum 1) "Pet")].




(** [sails.config.custom] of an app that sets its connection URI. *)
Definition customConfig : value :=
  VDict [("mongo", VDict [("connectionUri", VStr "mongodb://localhost/app")])].

End Sample.

(** ** Running a computation step by step *)

Lemma bind_split {A B} (m : M A) (k : A -> M B) (st : State) :
  bind m k st
  = match m st with
    | mkRun (Ok a) st' es => prepend es (k a st')
    | mkRun (Throw v) st' es => mkRun (Throw v) st' es
    end.
Proof. reflexivity. Qed.

Lemma tryCatch_split {A} (m : M A) (h : value -> M A) (st : State) :
  tryCatch m h st
  = match m st with
    | mkRun (Ok a) st' es => mkRun (Ok a) st' es
    | mkRun (Throw v) st' es => prepend es (h v st')
    end.
Proof. reflexivity. Qed.

Lemma events_prepend {A} (es : list event) (r : Run A) :
  events (prepend es r) = es ++ events r.
Proof. reflexivity. Qed.

Lemma out_prepend {A} (es : list event) (r : Run A) : out (prepend es r) = out r.
Proof. reflexivity. Qed.

Lemma final_prepend {A} (es : list event) (r : Run A) :
  final (prepend es r) = final r.
Proof. reflexivity. Qed.

(** Run a computation as far as its first stage that is not a plain
    state operation, and leave the stages folded. *)
Ltac reduce :=
  cbn [prepend out final events app ret throw emit getState liftO
       setFlag setMongoose setModels setGlobal setModules
       withFlag withModules hasAlreadyTriggeredCallback modules models global
       mongooseSet truthy] in *.

Ltac run :=
  reduce;
  repeat (progress (rewrite ?bind_split, ?tryCatch_split,
                      ?events_prepend, ?out_prepend, ?final_prepend);
          reduce).

Tactic Notation "run" "in" hyp(H) :=
  reduce;
  repeat (progress (rewrite ?bind_split, ?tryCatch_split,
                      ?events_prepend, ?out_prepend, ?final_prepend in H);
          reduce).

(** ** Facts about text *)

Section TextFacts.

Lemma append_cons (ch : ascii) (a b : string) :
  String ch a +:+ b = String ch (a +:+ b).
Proof. reflexivity. Qed.

Lemma append_empty_r (a : string) : a +:+ EmptyString = a.
Proof.
  induction a as [|ch a IH]; [reflexivity|].
  rewrite append_cons. f_equal. exact IH.
Qed.

Lemma append_assoc (a b c : string) : (a +:+ b) +:+ c = a +:+ (b +:+ c).
Proof.
  induction a as [|ch a IH]; [reflexivity|].
  rewrite !append_cons. f_equal. exact IH.
Qed.

Lemma lastChar_append (p s : string) :
  s <> EmptyString -> lastChar (p +:+ s) = lastChar s.
Proof.
  intros Hs. induction p as [|c p IH]; [reflexivity|].
  rewrite append_cons, <- IH. simpl.
  destruct (p +:+ s) eqn:E; [|reflexivity].
  destruct p; [exact (False_ind _ (Hs E)) | discriminate].
Qed.

Lemma ends_with_lastChar (s t : string) :
  s <> EmptyString -> ends_with s t -> lastChar t = lastChar s.
Proof. intros Hs [p ->]. now apply lastChar_append. Qed.

Lemma ends_with_append (p s : string) : ends_with s (p +:+ s).
Proof. now exists p. Qed.

Lemma mentions_middle (p s q : string) : mentions s (p +:+ s +:+ q).
Proof. now exists p, q. Qed.

Lemma blank_spaces (n : nat) : blank (spaces n) = true.
Proof. induction n; simpl; [reflexivity | exact IHn]. Qed.

End TextFacts.

(** ** Facts about dictionaries *)

Section DictFacts.
Context {A : Type}.
Implicit Types (d : Dict.t A) (k : string) (a : A).

Lemma get_set_same k a d : Dict.get k (Dict.set k a d) = Some a.
Proof.
  induction d as [|[k' a'] d IH]; simpl.
  - now rewrite String.eqb_refl.
  - destruct (String.eqb k k') eqn:E; simpl; rewrite E; [reflexivity | exact IH].
Qed.

Lemma get_set_other k k' a d :
  k <> k' -> Dict.get k' (Dict.set k a d) = Dict.get k' d.
Proof.
  intros Hne. induction d as [|[k0 a0] d IH]; simpl.
  - destruct (String.eqb_spec k' k); [congruence | reflexivity].
  - destruct (String.eqb_spec k k0) as [->|]; simpl.
    + destruct (String.eqb_spec k' k0); [congruence | reflexivity].
    + destruct (String.eqb_spec k' k0); [reflexivity | exact IH].
Qed.

Lemma get_In k a d : Dict.get k d = Some a -> In (k, a) d.
Proof.
  induction d as [|[k' a'] d IH]; simpl; [discriminate|].
  destruct (String.eqb_spec k k') as [->|]; intros H.
  - left. congruence.
  - right. now apply IH.
Qed.

End DictFacts.

(** ** The guard *)

(** C2.  Once the flag is set, calling [cb] with no error argument
    ([undefined], [null], or anything else that tests false) logs one
    warning and returns normally: the external callback is not called, the
    state is untouched, nothing is thrown. *)
Theorem cb_again_without_error_only_warns
    (ver : version) (w : World) (err : value) (st : State) :
  hasAlreadyTriggeredCallback st = true ->
  truthy err = false ->
  cb ver w err st = mkRun (Ok tt) st [LogWarn (Msg.calledAgain ver)].
Proof.
  intros Hflag Herr. unfold cb. run. rewrite Hflag. run. rewrite Herr. run.
  reflexivity.
Qed.

Lemma cb_again_without_error_only_warns_witness :
  cb Atelier (Sample.world (LoaderThrows Sample.boom)) VUndefined Sample.tripped
  = mkRun (Ok tt) Sample.tripped [LogWarn (Msg.calledAgain Atelier)].
Proof.
  apply (cb_again_without_error_only_warns
           Atelier (Sample.world (LoaderThrows Sample.boom)) VUndefined Sample.tripped);
    reflexivity.
Defined.

(** C3.  Once the flag is set, calling [cb] with an error (a value that
    tests true, as every [Error] object and every other object does) logs
    the two error lines and throws that very value; the external callback
    is not called and the state is untouched. *)
Theorem cb_again_with_error_throws
    (ver : version) (w : World) (err : value) (st : State) :
  hasAlreadyTriggeredCallback st = true ->
  truthy err = true ->
  cb ver w err st
  = mkRun (Throw err) st
          [LogError (Msg.calledAgain ver); LogError (Msg.crashing ver)].
Proof.
  intros Hflag Herr. unfold cb. run. rewrite Hflag. run. rewrite Herr. run.
  reflexivity.
Qed.

Lemma cb_again_with_error_throws_witness :
  cb Classic (Sample.world (LoaderThrows Sample.boom)) (VError Sample.boom) Sample.tripped
  = mkRun (Throw (VError Sample.boom)) Sample.tripped
          [LogError (Msg.calledAgain Classic); LogError (Msg.crashing Classic)].
Proof.
  apply (cb_again_with_error_throws
           Classic (Sample.world (LoaderThrows Sample.boom))
           (VError Sample.boom) Sample.tripped);
    reflexivity.
Defined.

(** Every object, an [Error] among them, tests true. *)
Lemma object_truthy (v : value) :
  typeof v = "object" -> v <> VNull -> truthy v = true.
Proof. destruct v; simpl; try discriminate; congruence. Qed.

(** ** Searching a text *)

Section Searching.

Lemma strip_sound (key t q : string) : strip key t = Some q -> t = key +:+ q.
Proof.
  revert t; induction key as [|a key IH]; intros [|b t]; simpl;
    try discriminate; try (intros [= <-]; reflexivity).
  case_bool_decide as Hab; [|discriminate].
  intros Hq. rewrite append_cons. subst b. f_equal. now apply IH.
Qed.

Lemma search_sound (key t p q : string) :
  search key t = Some (p, q) -> t = p +:+ key +:+ q.
Proof.
  revert p; induction t as [|c t IH]; intros p; simpl.
  - destruct (strip key EmptyString) eqn:E; [|discriminate].
    intros [= <- <-]. exact (strip_sound _ _ _ E).
  - destruct (strip key (String c t)) eqn:E.
    + intros [= <- <-]. exact (strip_sound _ _ _ E).
    + destruct (search key t) as [[p' q']|] eqn:S; [|discriminate].
      intros [= <- <-]. rewrite append_cons. f_equal. now apply IH.
Qed.

Lemma mentions_by_search (key t : string) :
  is_Some (search key t) -> mentions key t.
Proof.
  intros [[p q] H]. exists p, q. now apply search_sound.
Qed.

End Searching.

Ltac found := apply mentions_by_search; vm_compute; eexists; reflexivity.

(** ** [configure] *)

Lemma globalsModels_names_key : mentions Key.globalsModels Msg.globalsModels.
Proof. found. Qed.

Lemma uri_names_key (ver : version) : mentions Key.uri (Msg.uri ver).
Proof. destruct ver; found. Qed.

Lemma connectionOpts_names_key (ver : version) :
  mentions Key.connectionOpts (Msg.connectionOpts ver).
Proof. destruct ver; found. Qed.

Lemma sne_true (a b : string) : sne a b = true <-> a <> b.
Proof.
  unfold sne. destruct (String.eqb_spec a b); simpl; split; congruence.
Qed.

Lemma sne_false (a b : string) : sne a b = false <-> a = b.
Proof.
  unfold sne. destruct (String.eqb_spec a b); simpl; split; congruence.
Qed.

Lemma seq_true (a b : string) : seq a b = true <-> a = b.
Proof. unfold seq. apply String.eqb_eq. Qed.

(** The checks on the URI and the options, which both versions share. *)
Lemma configure_atelier_throws (en : Engine) (cfg : Config) :
  badUri cfg \/ arrayOpts cfg ->
  exists m, configure Atelier en cfg = Throw (newError en m)
            /\ complaint Atelier en cfg m.
Proof.
  intros Hbad. unfold configure.
  destruct (sne (typeof (uri cfg)) "string") eqn:Eu.
  - exists (Msg.uri Atelier). split; [reflexivity|].
    right; left. repeat split; [apply uri_names_key | now apply sne_true].
  - destruct (sne (typeof (connectionOpts cfg)) "object"
              || isArray (connectionOpts cfg)) eqn:Eo.
    + exists (Msg.connectionOpts Atelier). split; [reflexivity|].
      right; right. repeat split; [apply connectionOpts_names_key|].
      apply orb_true_iff in Eo as [Eo|Eo]; [left; now apply sne_true | now right].
    + exfalso. apply orb_false_iff in Eo as [_ Eo].
      destruct Hbad as [Hu|Ha].
      * apply sne_false in Eu. now apply Hu.
      * unfold arrayOpts in Ha. congruence.
Qed.

(** C4, as the code has it.  A malformed configuration makes [configure]
    throw, before [initialize] and so before any connection attempt: in
    both versions for a URI that is not a string and for array-valued
    connection options, and in [index.js] alone for a [models] flag that is
    not a boolean in a [globals] dictionary; the other version does not
    look at [globals].  Unless [globals] is [null], what is thrown is a
    fresh [Error] whose message is that of a check the configuration
    fails and names the key of that check ([index.js] reads [models] off a
    [null] [globals] before it gets that far). *)
Theorem configure_rejects_malformed
    (ver : version) (en : Engine) (cfg : Config) :
  badUri cfg \/ arrayOpts cfg \/ (ver = Classic /\ badFlag cfg) ->
  exists v,
    configure ver en cfg = Throw v /\
    (ver = Atelier \/ globals cfg <> VNull ->
     exists m, v = newError en m /\ complaint ver en cfg m).
Proof.
  intros Hbad. destruct ver.
  - unfold configure.
    destruct (seq (typeof (globals cfg)) "object") eqn:Eg.
    + destruct (getProp en (globals cfg) "models") as [g|t] eqn:Ep; simpl.
      * destruct (sne (typeof g) "boolean") eqn:Eb.
        -- eexists; split; [reflexivity|]. intros _.
           exists Msg.globalsModels. split; [reflexivity|]. left.
           split; [reflexivity|]. split; [apply globalsModels_names_key|].
           split; [reflexivity|]. split; [now apply seq_true|].
           exists g. split; [exact Ep | now apply sne_true].
        -- assert (Hrest : badUri cfg \/ arrayOpts cfg).
           { destruct Hbad as [H|[H|[_ (fields & Hg & Hflag)]]]; auto.
             exfalso. rewrite Hg in Ep. simpl in Ep. injection Ep as <-.
             apply sne_false in Eb. now apply Hflag. }
           destruct (configure_atelier_throws en cfg Hrest) as (m & Hm & Hc).
           unfold configure in Hm.
           destruct (sne (typeof (uri cfg)) "string") eqn:Eu.
           ++ eexists; split; [reflexivity|]. intros _.
              exists (Msg.uri Classic). split; [reflexivity|].
              right; left. repeat split; [apply uri_names_key | now apply sne_true].
           ++ destruct (sne (typeof (connectionOpts cfg)) "object"
                        || isArray (connectionOpts cfg)) eqn:Eo; [|discriminate].
              eexists; split; [reflexivity|]. intros _.
              exists (Msg.connectionOpts Classic). split; [reflexivity|].
              right; right. repeat split; [apply connectionOpts_names_key|].
              apply orb_true_iff in Eo as [Eo|Eo];
                [left; now apply sne_true | now right].
      * eexists; split; [reflexivity|]. intros [Hv|Hnull]; [discriminate|].
        exfalso. destruct (globals cfg); simpl in Ep; try discriminate.
        now apply Hnull.
    + assert (Hrest : badUri cfg \/ arrayOpts cfg).
      { destruct Hbad as [H|[H|[_ (fields & Hg & _)]]]; auto.
        rewrite Hg in Eg. discriminate. }
      destruct (configure_atelier_throws en cfg Hrest) as (m & Hm & Hc).
      unfold configure in Hm. simpl.
      destruct (sne (typeof (uri cfg)) "string") eqn:Eu.
      * eexists; split; [reflexivity|]. intros _.
        exists (Msg.uri Classic). split; [reflexivity|].
        right; left. repeat split; [apply uri_names_key | now apply sne_true].
      * destruct (sne (typeof (connectionOpts cfg)) "object"
                  || isArray (connectionOpts cfg)) eqn:Eo; [|discriminate].
        eexists; split; [reflexivity|]. intros _.
        exists (Msg.connectionOpts Classic). split; [reflexivity|].
        right; right. repeat split; [apply connectionOpts_names_key|].
        apply orb_true_iff in Eo as [Eo|Eo];
          [left; now apply sne_true | now right].
  - assert (Hrest : badUri cfg \/ arrayOpts cfg).
    { destruct Hbad as [H|[H|[H _]]]; auto. discriminate. }
    destruct (configure_atelier_throws en cfg Hrest) as (m & Hm & Hc).
    exists (newError en m). split; [exact Hm|]. intros _. now exists m.
Qed.

Lemma configure_rejects_malformed_witness :
  exists v,
    configure Classic Sample.en (Sample.cfg (VDict [("models", VStr "yes")])) = Throw v /\
    (Classic = Atelier \/ VDict [("models", VStr "yes")] <> VNull ->
     exists m, v = newError Sample.en m /\
               complaint Classic Sample.en
                         (Sample.cfg (VDict [("models", VStr "yes")])) m).
Proof.
  apply (configure_rejects_malformed
           Classic Sample.en (Sample.cfg (VDict [("models", VStr "yes")]))).
  right; right. split; [reflexivity|].
  exists [("models", VStr "yes")]. split; [reflexivity|]. simpl. discriminate.
Defined.

(** C4, as stated, fails in the version without the [globals] check: with
    a [models] flag that is the string "yes", a string URI and dictionary
    options, its [configure] returns. *)
Lemma configure_atelier_ignores_flag :
  badFlag (Sample.cfg (VDict [("models", VStr "yes")])) /\
  configure Atelier Sample.en (Sample.cfg (VDict [("models", VStr "yes")])) = Ok tt.
Proof.
  split; [|reflexivity].
  exists [("models", VStr "yes")]. split; [reflexivity|]. simpl. discriminate.
Qed.

(** ** One model definition *)

Lemma compileDef_run
    (ver : version) (w : World) (identity : string) (schemas : Dict.t value)
    (st : State) :
  compileDef ver w identity schemas st
  = match Dict.get identity (modules st) with
    | None => mkRun (Throw (VError (nullish (engine w) VUndefined "schema"))) st []
    | Some d =>
        let s := Def.schema (defaulted d) in
        let c := Def.constructSchema d in
        let st' := afterDefault identity d st in
        if schemaRejected s then
          mkRun (Throw (newError (engine w) (Msg.invalidSchema ver identity))) st' []
        else if seq (typeof c) "undefined" then
          mkRun (match newSchema w s with
                 | Returns n => Ok (Dict.assign identity (VSchema n) schemas)
                 | Throws e => Throw (VError e)
                 end)
                st' [SchemaCalled identity s]
        else if seq (typeof c) "function" then
          mkRun (match interceptor w c s with
                 | Returns v => Ok (Dict.assign identity v schemas)
                 | Throws e => Throw (VError (rewrap ver identity e))
                 end)
                st' [InterceptorCalled identity c s]
        else
          mkRun (Throw (newError (engine w) (Msg.invalidInterceptor ver identity)))
                st' []
    end.
Proof.
  unfold compileDef. run.
  destruct (Dict.get identity (modules st)) as [d|]; [|reflexivity].
  unfold afterDefault, defaulted.
  destruct (seq (typeof (Def.schema d)) "undefined"); run;
    cbn [Def.withSchema Def.schema Def.constructSchema];
    (destruct (schemaRejected _); [reflexivity|]);
    (destruct (seq (typeof (Def.constructSchema d)) "undefined"); run;
     [destruct (newSchema w _); reflexivity|]);
    (destruct (seq (typeof (Def.constructSchema d)) "function"); run;
     [destruct (interceptor w _ _); reflexivity | reflexivity]).
Qed.

(** C5.  For a definition whose [schema] is [undefined], compiling it is
    compiling the same definition with [schema] set to the empty
    dictionary: same completion (the same compiled schema object, through
    [new Schema] or through the interceptor), same events, same final
    state. *)
Theorem compileDef_missing_schema_is_empty_dictionary
    (ver : version) (w : World) (identity : string) (schemas : Dict.t value)
    (st : State) (d : Def.t) :
  Dict.get identity (modules st) = Some d ->
  Def.schema d = VUndefined ->
  compileDef ver w identity schemas st
  = compileDef ver w identity schemas
      (withModules (Dict.set identity (Def.withSchema (VDict []) d) (modules st)) st).
Proof.
  intros Hget Hschema. rewrite !compileDef_run. run.
  rewrite Hget, get_set_same.
  destruct d as [s c g]. cbn [Def.schema] in Hschema. subst s.
  reflexivity.
Qed.

Lemma compileDef_missing_schema_is_empty_dictionary_witness :
  compileDef Classic (Sample.world (LoaderThrows Sample.boom)) "pet" []
    (withModules (Sample.pet VUndefined) Sample.fresh)
  = compileDef Classic (Sample.world (LoaderThrows Sample.boom)) "pet" []
      (withModules
         (Dict.set "pet" (Def.withSchema (VDict []) (Def.mk VUndefined VUndefined "Pet"))
                   (modules (withModules (Sample.pet VUndefined) Sample.fresh)))
         (withModules (Sample.pet VUndefined) Sample.fresh)).
Proof.
  apply (compileDef_missing_schema_is_empty_dictionary
           Classic (Sample.world (LoaderThrows Sample.boom)) "pet" []
           (withModules (Sample.pet VUndefined) Sample.fresh)
           (Def.mk VUndefined VUndefined "Pet"));
    reflexivity.
Defined.

(** C10.  For a definition whose [schema] is [null], the shape check does
    not reject ([typeof null] is "object" and [null] is no array): [null]
    itself goes to [new Schema], or to the interceptor, and the only
    validation error left is the one about [constructSchema]. *)
Theorem null_schema_reaches_construction
    (ver : version) (w : World) (identity : string) (schemas : Dict.t value)
    (st : State) (d : Def.t) :
  Dict.get identity (modules st) = Some d ->
  Def.schema d = VNull ->
  schemaRejected (Def.schema d) = false /\
  compileDef ver w identity schemas st
  = if seq (typeof (Def.constructSchema d)) "undefined" then
      mkRun (match newSchema w VNull with
             | Returns s => Ok (Dict.assign identity (VSchema s) schemas)
             | Throws e => Throw (VError e)
             end)
            st [SchemaCalled identity VNull]
    else if seq (typeof (Def.constructSchema d)) "function" then
      mkRun (match interceptor w (Def.constructSchema d) VNull with
             | Returns s => Ok (Dict.assign identity s schemas)
             | Throws e => Throw (VError (rewrap ver identity e))
             end)
            st [InterceptorCalled identity (Def.constructSchema d) VNull]
    else
      mkRun (Throw (newError (engine w) (Msg.invalidInterceptor ver identity))) st [].
Proof.
  intros Hget Hschema. rewrite Hschema. split; [reflexivity|].
  rewrite compileDef_run, Hget.
  destruct d as [s c g]. cbn [Def.schema] in Hschema. subst s.
  reflexivity.
Qed.

Lemma null_schema_reaches_construction_witness :
  schemaRejected (Def.schema (Def.mk VNull VUndefined "Pet")) = false /\
  compileDef Atelier (Sample.world (LoaderThrows Sample.boom)) "pet" []
    (withModules (Sample.pet VNull) Sample.fresh)
  = mkRun (Ok [("pet", VSchema 7)])
          (withModules (Sample.pet VNull) Sample.fresh)
          [SchemaCalled "pet" VNull].
Proof.
  apply (null_schema_reaches_construction
           Atelier (Sample.world (LoaderThrows Sample.boom)) "pet" []
           (withModules (Sample.pet VNull) Sample.fresh)
           (Def.mk VNull VUndefined "Pet"));
    reflexivity.
Defined.

(** ** What a computation emits, keeps and throws *)

Section Frames.
Context {A : Type}.

Lemma Emits_weaken (P Q : event -> bool) (m : M A) :
  (forall e, P e = true -> Q e = true) -> Emits P m -> Emits Q m.
Proof.
  intros HPQ Hm st. specialize (Hm st).
  rewrite forallb_forall in *. auto.
Qed.

Lemma Emits_In (P : event -> bool) (m : M A) (st : State) (e : event) :
  Emits P m -> In e (events (m st)) -> P e = true.
Proof. intros Hm. specialize (Hm st). rewrite forallb_forall in Hm. auto. Qed.

Lemma Emits_tryCatch (P : event -> bool) (m : M A) (h : value -> M A) :
  Emits P m -> (forall v, Emits P (h v)) -> Emits P (tryCatch m h).
Proof.
  intros Hm Hh st. unfold tryCatch. specialize (Hm st).
  destruct (m st) as [[a|v] st' es]; [exact Hm|]. simpl in *.
  rewrite forallb_app, Hm. apply Hh.
Qed.

Lemma Keeps_tryCatch {X} (f : State -> X) (m : M A) (h : value -> M A) :
  Keeps f m -> (forall v, Keeps f (h v)) -> Keeps f (tryCatch m h).
Proof.
  intros Hm Hh st. unfold tryCatch. specialize (Hm st).
  destruct (m st) as [[a|v] st' es]; [exact Hm|]. simpl in *.
  now rewrite Hh.
Qed.

End Frames.

Section FramesBind.
Context {A B : Type}.

Lemma Emits_bind (P : event -> bool) (m : M A) (k : A -> M B) :
  Emits P m -> (forall a, Emits P (k a)) -> Emits P (bind m k).
Proof.
  intros Hm Hk st. unfold bind. specialize (Hm st).
  destruct (m st) as [[a|v] st' es]; simpl in *; [|exact Hm].
  rewrite forallb_app, Hm. apply Hk.
Qed.

Lemma Keeps_bind {X} (f : State -> X) (m : M A) (k : A -> M B) :
  Keeps f m -> (forall a, Keeps f (k a)) -> Keeps f (bind m k).
Proof.
  intros Hm Hk st. unfold bind. specialize (Hm st).
  destruct (m st) as [[a|v] st' es]; simpl in *; [|exact Hm].
  now rewrite Hk.
Qed.

Lemma Raises_bind (m : M A) (k : A -> M B) :
  Raises m -> (forall a, Raises (k a)) -> Raises (bind m k).
Proof.
  intros Hm Hk st v. unfold bind. specialize (Hm st).
  destruct (m st) as [[a|t] st' es]; simpl in *.
  - apply Hk.
  - intros [= <-]. now apply Hm.
Qed.

End FramesBind.

Lemma getProp_raises (en : Engine) (v : value) (k : string) (t : value) :
  getProp en v k = Throw t -> exists e, t = VError e.
Proof. destruct v; simpl; try discriminate; intros [= <-]; eauto. Qed.

Lemma wantsGlobals_raises (en : Engine) (cfg : Config) (t : value) :
  wantsGlobals en cfg = Throw t -> exists e, t = VError e.
Proof.
  unfold wantsGlobals. destruct (seq _ _); [|discriminate].
  destruct (getProp en (globals cfg) "models") eqn:E; simpl; [discriminate|].
  intros [= <-]. eapply getProp_raises, E.
Qed.

(** Goals [Emits P m], [Keeps f m] and [Raises m] follow the shape of [m]. *)
Ltac frame_atom :=
  solve
    [ intros ?; reflexivity
    | intros ? ? ?; discriminate
    | intros ? ? [= <-]; eexists; reflexivity
    | let H := fresh in
      intros ? ? H; simpl in H; eapply wantsGlobals_raises; exact H ].

Ltac frame :=
  repeat first
    [ frame_atom
    | solve [match goal with H : _ |- _ => apply H end]
    | progress cbv zeta
    | match goal with
      | |- Emits _ (bind _ _) => apply Emits_bind; [|intros ?]
      | |- Keeps _ (bind _ _) => apply Keeps_bind; [|intros ?]
      | |- Raises (bind _ _) => apply Raises_bind; [|intros ?]
      | |- Emits _ (match ?x with _ => _ end) => destruct x
      | |- Keeps _ (match ?x with _ => _ end) => destruct x
      | |- Raises (match ?x with _ => _ end) => destruct x
      end ].

Section Stages.
Variables (ver : version) (w : World) (cfg : Config).

Lemma compileDef_emits identity schemas :
  Emits compiling (compileDef ver w identity schemas).
Proof. unfold compileDef. frame. Qed.

Lemma compileDef_keeps_flag identity schemas :
  Keeps hasAlreadyTriggeredCallback (compileDef ver w identity schemas).
Proof. unfold compileDef. frame. Qed.

Lemma compileDef_keeps_models identity schemas :
  Keeps models (compileDef ver w identity schemas).
Proof. unfold compileDef. frame. Qed.

Lemma compileDef_keeps_global identity schemas :
  Keeps global (compileDef ver w identity schemas).
Proof. unfold compileDef. frame. Qed.

Lemma compileDef_raises identity schemas :
  Raises (compileDef ver w identity schemas).
Proof. unfold compileDef. frame. Qed.

Lemma compileSchemas_emits identities schemas :
  Emits compiling (compileSchemas ver w identities schemas).
Proof.
  revert schemas; induction identities as [|identity rest IH]; intros schemas;
    simpl; frame; apply compileDef_emits.
Qed.

Lemma compileSchemas_keeps {X} (f : State -> X) identities schemas :
  (forall identity schemas', Keeps f (compileDef ver w identity schemas')) ->
  Keeps f (compileSchemas ver w identities schemas).
Proof.
  intros Hdef.
  revert schemas; induction identities as [|identity rest IH]; intros schemas;
    simpl; frame; apply Hdef.
Qed.

Lemma compileSchemas_raises identities schemas :
  Raises (compileSchemas ver w identities schemas).
Proof.
  revert schemas; induction identities as [|identity rest IH]; intros schemas;
    simpl; frame; apply compileDef_raises.
Qed.

Lemma registerModel_emits identity schemaObj :
  Emits modelling (registerModel w identity schemaObj).
Proof. unfold registerModel. frame. Qed.

Lemma registerModel_keeps_flag identity schemaObj :
  Keeps hasAlreadyTriggeredCallback (registerModel w identity schemaObj).
Proof. unfold registerModel. frame. Qed.

Lemma registerModel_keeps_modules identity schemaObj :
  Keeps modules (registerModel w identity schemaObj).
Proof. unfold registerModel. frame. Qed.

Lemma registerModel_keeps_global identity schemaObj :
  Keeps global (registerModel w identity schemaObj).
Proof. unfold registerModel. frame. Qed.

Lemma registerModel_raises identity schemaObj :
  Raises (registerModel w identity schemaObj).
Proof. unfold registerModel. frame. Qed.

Lemma registerModels_emits schemas : Emits modelling (registerModels w schemas).
Proof.
  induction schemas as [|[identity schemaObj] rest IH]; simpl; frame; apply registerModel_emits.
Qed.

Lemma registerModels_keeps {X} (f : State -> X) schemas :
  (forall identity schemaObj, Keeps f (registerModel w identity schemaObj)) ->
  Keeps f (registerModels w schemas).
Proof.
  intros Hone.
  induction schemas as [|[identity schemaObj] rest IH]; simpl; frame; apply Hone.
Qed.

Lemma registerModels_raises schemas : Raises (registerModels w schemas).
Proof.
  induction schemas as [|[identity schemaObj] rest IH]; simpl; frame; apply registerModel_raises.
Qed.

Lemma exposeModels_emits registry : Emits nothing (exposeModels registry).
Proof. induction registry as [|[identity m] rest IH]; simpl; frame. Qed.

Lemma exposeModels_keeps {X} (f : State -> X) registry :
  (forall k v, Keeps f (setGlobal k v)) -> Keeps f (exposeModels registry).
Proof.
  intros Hset. induction registry as [|[identity m] rest IH]; simpl; frame; apply Hset.
Qed.

Lemma exposeModels_raises registry : Raises (exposeModels registry).
Proof. induction registry as [|[identity m] rest IH]; simpl; frame. Qed.

Lemma exposeGlobals_emits : Emits nothing (exposeGlobals w cfg).
Proof. unfold exposeGlobals. frame; apply exposeModels_emits. Qed.

Lemma exposeGlobals_keeps {X} (f : State -> X) :
  (forall k v, Keeps f (setGlobal k v)) -> Keeps f (exposeGlobals w cfg).
Proof.
  intros Hset. unfold exposeGlobals. frame; now apply exposeModels_keeps.
Qed.

Lemma exposeGlobals_raises : Raises (exposeGlobals w cfg).
Proof. unfold exposeGlobals. frame; apply exposeModels_raises. Qed.

Lemma builds_of_stage (e : event) :
  compiling e = true \/ modelling e = true \/ nothing e = true -> builds e = true.
Proof. destruct e; simpl; intuition discriminate. Qed.

Lemma loadedBody_emits : Emits builds (loadedBody ver w cfg).
Proof.
  unfold loadedBody. frame.
  - eapply Emits_weaken; [|apply compileSchemas_emits].
    intros e He. apply builds_of_stage. auto.
  - eapply Emits_weaken; [|apply registerModels_emits].
    intros e He. apply builds_of_stage. auto.
  - eapply Emits_weaken; [|apply exposeGlobals_emits].
    intros e He. apply builds_of_stage. auto.
Qed.

Lemma loadedBody_keeps_flag :
  Keeps hasAlreadyTriggeredCallback (loadedBody ver w cfg).
Proof.
  unfold loadedBody. frame.
  - apply compileSchemas_keeps. intros. apply compileDef_keeps_flag.
  - apply registerModels_keeps. intros. apply registerModel_keeps_flag.
  - apply exposeGlobals_keeps. intros. frame.
Qed.

Lemma loadedBody_raises : Raises (loadedBody ver w cfg).
Proof.
  unfold loadedBody. frame.
  - apply compileSchemas_raises.
  - apply registerModels_raises.
  - apply exposeGlobals_raises.
Qed.

End Stages.

(** ** The callback fires once *)

Section Once.
Variables (ver : version) (w : World) (cfg : Config).

Lemma callbacks_app (a b : list event) :
  callbacks (a ++ b) = callbacks a ++ callbacks b.
Proof.
  induction a as [|e a IH]; simpl; [reflexivity|].
  destruct e; simpl; rewrite ?IH; reflexivity.
Qed.

Lemma callbacks_none (P : event -> bool) (es : list event) :
  (forall v, P (CalledBack v) = false) ->
  forallb P es = true -> callbacks es = [].
Proof.
  intros HP. induction es as [|e es IH]; simpl; [reflexivity|].
  intros H. apply andb_true_iff in H as [He Hes].
  destruct e; auto. rewrite HP in He. discriminate.
Qed.

(** The first call of [cb]: the flag is set and the external callback is
    called with [err]; what it throws leaves [cb]. *)
Lemma cb_fresh (err : value) (st : State) :
  hasAlreadyTriggeredCallback st = false ->
  cb ver w err st
  = mkRun (match external w err with
           | None => Ok tt
           | Some v => Throw v
           end)
          (withFlag true st) [CalledBack err].
Proof.
  intros Hflag. unfold cb. run. rewrite Hflag. run.
  destruct (external w err); reflexivity.
Qed.

(** Any later call: nothing but log lines. *)
Lemma cb_tripped (err : value) (st : State) :
  hasAlreadyTriggeredCallback st = true ->
  cb ver w err st
  = mkRun (if truthy err then Throw err else Ok tt) st
          (if truthy err
           then [LogError (Msg.calledAgain ver); LogError (Msg.crashing ver)]
           else [LogWarn (Msg.calledAgain ver)]).
Proof.
  intros Hflag. unfold cb. run. rewrite Hflag.
  destruct (truthy err); reflexivity.
Qed.



End Once.

(** ** The paths through [initialize] *)

Section Paths.
Variables (ver : version) (w : World) (cfg : Config).

Lemma truthy_not_undefined (v : value) : truthy v = true -> v <> VUndefined.
Proof. intros H ->. discriminate. Qed.

(** Either the try block of [modulesLoaded] never starts, and then nothing
    is compiled or registered and the callback gets an error; or it runs,
    and the callback gets its verdict right after it. *)
Lemma initialize_paths (st : State) :
  (forallb (fun e => negb (builds e)) (events (initialize ver w cfg st)) = true /\
   models (final (initialize ver w cfg st)) = models st /\
   global (final (initialize ver w cfg st)) = global st /\
   exists v, callbacks (events (initialize ver w cfg st)) = [v] /\ v <> VUndefined)
  \/
  (exists sync err mods tail,
     connect w (uri cfg) (connectionOpts cfg) = None /\
     loadModels w = LoaderCalls sync err mods /\
     truthy err = false /\
     events (initialize ver w cfg st)
     = upToLoading cfg ++ events (loadedBody ver w cfg (loadedState mods st))
         ++ CalledBack (verdict (loadedBody ver w cfg (loadedState mods st))) :: tail /\
     forallb quiet tail = true /\
     final (initialize ver w cfg st)
     = withFlag true (final (loadedBody ver w cfg (loadedState mods st)))).
Proof.
  unfold initialize. run.
  set (st1 := mkState true (models st) (global st) (modules st) false).
  assert (Hflag1 : hasAlreadyTriggeredCallback st1 = false) by reflexivity.
  destruct (connect w (uri cfg) (connectionOpts cfg)) as [e|] eqn:Hc; run.
  { left. rewrite (cb_fresh _ _ _ st1 Hflag1). run.
    repeat split; try reflexivity. eexists; split; [reflexivity | discriminate]. }
  destruct (loadModels w) as [e|sync err mods] eqn:Hl; run.
  { left. rewrite (cb_fresh _ _ _ st1 Hflag1). run.
    repeat split; try reflexivity. eexists; split; [reflexivity | discriminate]. }
  unfold modulesLoaded. run.
  change (withModules mods st1) with (loadedState mods st).
  assert (Hflag2 : hasAlreadyTriggeredCallback (loadedState mods st) = false)
    by reflexivity.
  destruct (truthy err) eqn:Herr; run.
  { left. rewrite (cb_fresh _ _ _ _ Hflag2). run.
    destruct (external w err) as [e|]; run.
    - destruct sync; run.
      + rewrite cb_tripped by reflexivity. destruct (truthy e); run;
          (repeat split; try reflexivity;
           exists err; split; [reflexivity | now apply truthy_not_undefined]).
      + repeat split; try reflexivity.
        exists err. split; [reflexivity | now apply truthy_not_undefined].
    - repeat split; try reflexivity.
      exists err. split; [reflexivity | now apply truthy_not_undefined]. }
  right. exists sync, err, mods.
  pose proof (loadedBody_keeps_flag ver w cfg (loadedState mods st)) as Hkeep.
  unfold verdict.
  destruct (loadedBody ver w cfg (loadedState mods st)) as [o s1 e1]; run.
  assert (Hs1 : hasAlreadyTriggeredCallback s1 = false) by exact Hkeep.
  destruct o as [[]|t]; run;
    rewrite (cb_fresh _ _ _ s1 Hs1); run;
    (destruct (external w _) as [e|]; run;
     [ rewrite ?cb_tripped by reflexivity; destruct (truthy e) eqn:He; run;
       destruct sync; run; rewrite ?cb_tripped by reflexivity;
       rewrite ?He; run
     | ]);
    (eexists; split; [reflexivity|]; split; [reflexivity|];
     split; [assumption|];
     split; [rewrite <- ?app_assoc; simpl; reflexivity|];
     split; reflexivity).
Qed.

End Paths.

(** C8.  When the loader calls [modulesLoaded] with an error (a value that
    tests true), the external callback is called with that very value; no
    schema is compiled, no model is built, and [sails.models] and [global]
    stay as they were.  What follows the callback, if it throws, is what
    the guard logs when the outer [catch] calls [cb] again (its two error
    lines, or its warning when what was thrown tests false), or an
    uncaught exception. *)
Theorem loader_error_is_passed_through
    (ver : version) (w : World) (cfg : Config) (st : State)
    (sync : bool) (err : value) (mods : Dict.t Def.t) :
  connect w (uri cfg) (connectionOpts cfg) = None ->
  loadModels w = LoaderCalls sync err mods ->
  truthy err = true ->
  events (initialize ver w cfg st)
  = upToLoading cfg ++ CalledBack err ::
      match external w err with
      | None => []
      | Some t =>
          if sync
          then if truthy t
               then [LogError (Msg.calledAgain ver); LogError (Msg.crashing ver)]
               else [LogWarn (Msg.calledAgain ver)]
          else [Uncaught t]
      end
  /\ callbacks (events (initialize ver w cfg st)) = [err]
  /\ forallb (fun e => negb (builds e)) (events (initialize ver w cfg st)) = true
  /\ models (final (initialize ver w cfg st)) = models st
  /\ global (final (initialize ver w cfg st)) = global st.
Proof.
  intros Hc Hl Herr.
  unfold initialize, modulesLoaded. run.
  rewrite Hc. run. rewrite Hl. run. rewrite Herr.
  rewrite cb_fresh by reflexivity. run.
  destruct (external w err) as [e|]; run.
  - destruct sync; run.
    + rewrite cb_tripped by reflexivity.
      destruct (truthy e); run; repeat split; reflexivity.
    + repeat split; reflexivity.
  - repeat split; reflexivity.
Qed.

Lemma loader_error_is_passed_through_witness :
  events (initialize Classic
            (Sample.world (LoaderCalls false (VError Sample.boom) Sample.two))
            (Sample.cfg Sample.exposing) Sample.fresh)
  = upToLoading (Sample.cfg Sample.exposing) ++ CalledBack (VError Sample.boom) :: []
  /\ callbacks (events (initialize Classic
            (Sample.world (LoaderCalls false (VError Sample.boom) Sample.two))
            (Sample.cfg Sample.exposing) Sample.fresh)) = [VError Sample.boom]
  /\ forallb (fun e => negb (builds e))
       (events (initialize Classic
            (Sample.world (LoaderCalls false (VError Sample.boom) Sample.two))
            (Sample.cfg Sample.exposing) Sample.fresh)) = true
  /\ models (final (initialize Classic
            (Sample.world (LoaderCalls false (VError Sample.boom) Sample.two))
            (Sample.cfg Sample.exposing) Sample.fresh)) = None
  /\ global (final (initialize Classic
            (Sample.world (LoaderCalls false (VError Sample.boom) Sample.two))
            (Sample.cfg Sample.exposing) Sample.fresh)) = ∅.
Proof.
  apply (loader_error_is_passed_through
           Classic (Sample.world (LoaderCalls false (VError Sample.boom) Sample.two))
           (Sample.cfg Sample.exposing) Sample.fresh
           false (VError Sample.boom) Sample.two);
    reflexivity.
Defined.

(** ** An interceptor that throws *)

Section Interception.
Variables (ver : version) (w : World) (cfg : Config).

(** In the loop body, an interceptor that is called and throws ends the
    body with its error, rewritten. *)
Lemma compileDef_interception
    (identity' : string) (schemas : Dict.t value) (st : State)
    (identity : string) (f dict : value) (e : Error) :
  In (InterceptorCalled identity f dict)
     (events (compileDef ver w identity' schemas st)) ->
  interceptor w f dict = Throws e ->
  out (compileDef ver w identity' schemas st)
  = Throw (VError (rewrap ver identity e)).
Proof.
  intros Hin Hthrows. rewrite compileDef_run in *.
  destruct (Dict.get identity' (modules st)) as [d|]; [|contradiction].
  cbv zeta in *.
  destruct (schemaRejected _); [contradiction|].
  destruct (seq (typeof (Def.constructSchema d)) "undefined").
  { destruct Hin as [Hin|[]]. discriminate. }
  destruct (seq (typeof (Def.constructSchema d)) "function"); [|contradiction].
  destruct Hin as [Hin|[]]. injection Hin as <- <- <-.
  run. now rewrite Hthrows.
Qed.

Lemma compileSchemas_interception
    (identities : list string) (schemas : Dict.t value) (st : State)
    (identity : string) (f dict : value) (e : Error) :
  In (InterceptorCalled identity f dict)
     (events (compileSchemas ver w identities schemas st)) ->
  interceptor w f dict = Throws e ->
  out (compileSchemas ver w identities schemas st)
  = Throw (VError (rewrap ver identity e)).
Proof.
  revert schemas st.
  induction identities as [|identity' rest IH]; intros schemas st Hin Hthrows.
  - contradiction.
  - cbn [compileSchemas] in *. run. run in Hin.
    pose proof (compileDef_interception identity' schemas st identity f dict e)
      as Hdef.
    destruct (compileDef ver w identity' schemas st) as [[schemas'|t] s1 e1];
      run; run in Hin.
    + apply in_app_or in Hin as [Hin|Hin].
      * specialize (Hdef Hin Hthrows). discriminate.
      * now apply IH.
    + now apply Hdef.
Qed.

(** What follows the compilation emits no interceptor call. *)
Lemma registration_emits (schemas : Dict.t value) :
  Emits (fun e => modelling e || nothing e)
        (setModels [] ;; registerModels w schemas ;; exposeGlobals w cfg).
Proof.
  frame.
  - eapply Emits_weaken; [|apply registerModels_emits].
    intros ? ->. reflexivity.
  - eapply Emits_weaken; [|apply exposeGlobals_emits].
    intros ? H. discriminate H.
Qed.

Lemma loadedBody_interception
    (st : State) (identity : string) (f dict : value) (e : Error) :
  In (InterceptorCalled identity f dict) (events (loadedBody ver w cfg st)) ->
  interceptor w f dict = Throws e ->
  out (loadedBody ver w cfg st) = Throw (VError (rewrap ver identity e)).
Proof.
  intros Hin Hthrows. unfold loadedBody in *. run. run in Hin.
  pose proof (compileSchemas_interception
                (Dict.keys (modules st)) [] st identity f dict e) as Hc.
  destruct (compileSchemas ver w (Dict.keys (modules st)) [] st)
    as [[schemas|t] s1 e1]; reduce.
  - rewrite events_prepend in Hin.
    apply in_app_or in Hin as [Hin|Hin].
    + specialize (Hc Hin Hthrows). discriminate.
    + apply (Emits_In _ _ s1 _ (registration_emits schemas)) in Hin.
      discriminate.
  - specialize (Hc Hin Hthrows). congruence.
Qed.

End Interception.

Lemma interceptorPrefix_names_identity (ver : version) (identity : string) :
  mentions identity (Msg.interceptorPrefix ver identity).
Proof.
  destruct ver; unfold Msg.interceptorPrefix, quoted.
  - apply mentions_middle.
  - exists (nl +:+ "Encountered an error when running " +:+ quoted "constructSchema"
            +:+ " interceptor provided for model" +:+ nl +:+ dq),
           (dq +:+ ". Details:" +:+ nl).
    unfold quoted. rewrite !append_assoc. reflexivity.
Qed.

Lemma interceptorTrailer_blank (ver : version) :
  blank (Msg.interceptorTrailer ver) = true.
Proof. destruct ver; reflexivity. Qed.

(** C7, as the code has it.  When the interceptor of model [identity] is
    run and throws [e], the external callback is called once, with that
    error rewritten: message and stack are a prefix that names [identity],
    then the original text, then a trailer of blanks.  In [index.js] the
    trailer is empty, so the original text is the suffix; the other version
    closes its template literal on a new, indented line, so a line break
    and blanks follow the original text. *)
Theorem interceptor_error_is_rewrapped
    (ver : version) (w : World) (cfg : Config) (st : State)
    (identity : string) (f dict : value) (e : Error) :
  In (InterceptorCalled identity f dict) (events (initialize ver w cfg st)) ->
  interceptor w f dict = Throws e ->
  callbacks (events (initialize ver w cfg st)) = [VError (rewrap ver identity e)]
  /\ message (rewrap ver identity e)
     = Msg.interceptorPrefix ver identity +:+ message e +:+ Msg.interceptorTrailer ver
  /\ stack (rewrap ver identity e)
     = Msg.interceptorPrefix ver identity +:+ stack e +:+ Msg.interceptorTrailer ver
  /\ mentions identity (Msg.interceptorPrefix ver identity)
  /\ blank (Msg.interceptorTrailer ver) = true
  /\ (ver = Classic ->
      ends_with (message e) (message (rewrap ver identity e)) /\
      ends_with (stack e) (stack (rewrap ver identity e))).
Proof.
  intros Hin Hthrows.
  split; [|split; [reflexivity|split; [reflexivity|split;
    [apply interceptorPrefix_names_identity|split;
      [apply interceptorTrailer_blank|]]]]].
  - destruct (initialize_paths ver w cfg st)
      as [(Hquiet & _) | (sync & err & mods & tail & _ & _ & _ & Hev & Htail & _)].
    + exfalso. rewrite forallb_forall in Hquiet.
      specialize (Hquiet _ Hin). discriminate.
    + rewrite Hev in Hin |- *.
      assert (Hbody : In (InterceptorCalled identity f dict)
                        (events (loadedBody ver w cfg (loadedState mods st)))).
      { apply in_app_or in Hin as [Hin|Hin].
        - simpl in Hin. intuition discriminate.
        - apply in_app_or in Hin as [Hin|[Hin|Hin]]; [exact Hin|discriminate|].
          rewrite forallb_forall in Htail. specialize (Htail _ Hin).
          discriminate. }
      pose proof (loadedBody_interception ver w cfg _ _ _ _ _ Hbody Hthrows)
        as Hout.
      pose proof (loadedBody_emits ver w cfg (loadedState mods st)) as Hemit.
      unfold verdict. rewrite Hout.
      rewrite !callbacks_app. unfold upToLoading. cbn [callbacks app].
      rewrite (callbacks_none builds _ (fun _ => eq_refl) Hemit).
      rewrite (callbacks_none quiet _ (fun _ => eq_refl) Htail).
      reflexivity.
  - intros ->. unfold rewrap. cbn [message stack Msg.interceptorTrailer].
    rewrite !append_empty_r. split; apply ends_with_append.
Qed.

Lemma interceptor_error_is_rewrapped_witness :
  callbacks (events (initialize Classic
                       (Sample.world (LoaderCalls false VUndefined Sample.custom))
                       (Sample.cfg Sample.hiding) Sample.fresh))
  = [VError (rewrap Classic "pet" Sample.boom)]
  /\ message (rewrap Classic "pet" Sample.boom)
     = Msg.interceptorPrefix Classic "pet" +:+ message Sample.boom
       +:+ Msg.interceptorTrailer Classic
  /\ stack (rewrap Classic "pet" Sample.boom)
     = Msg.interceptorPrefix Classic "pet" +:+ stack Sample.boom
       +:+ Msg.interceptorTrailer Classic
  /\ mentions "pet" (Msg.interceptorPrefix Classic "pet")
  /\ blank (Msg.interceptorTrailer Classic) = true
  /\ (Classic = Classic ->
      ends_with (message Sample.boom) (message (rewrap Classic "pet" Sample.boom)) /\
      ends_with (stack Sample.boom) (stack (rewrap Classic "pet" Sample.boom))).
Proof.
  apply (interceptor_error_is_rewrapped
           Classic (Sample.world (LoaderCalls false VUndefined Sample.custom))
           (Sample.cfg Sample.hiding) Sample.fresh
           "pet" (VFunction 0) (VDict []) Sample.boom).
  - vm_compute. tauto.
  - reflexivity.
Defined.

(** C7, as stated, fails in the version written with template literals:
    the interceptor of [pet] throws an error whose message is "boom", and
    the message the callback receives does not end in "boom". *)
Lemma atelier_original_text_is_not_the_suffix :
  callbacks (events (initialize Atelier
                       (Sample.world (LoaderCalls false VUndefined Sample.custom))
                       (Sample.cfg Sample.hiding) Sample.fresh))
  = [VError (rewrap Atelier "pet" Sample.boom)]
  /\ ~ ends_with (message Sample.boom) (message (rewrap Atelier "pet" Sample.boom)).
Proof.
  split; [vm_compute; reflexivity|].
  intros H. apply ends_with_lastChar in H; [|discriminate].
  vm_compute in H. discriminate.
Qed.

(** ** A schema that is not a dictionary *)

Lemma invalidSchema_names_identity (ver : version) (identity : string) :
  mentions identity (Msg.invalidSchema ver identity).
Proof.
  destruct ver; unfold Msg.invalidSchema.
  - apply mentions_middle.
  - exists (nl +:+ "Invalid " +:+ quoted "schema" +:+ " provided in model " +:+ dq),
           (dq +:+ "." +:+ nl +:+ "If provided, " +:+ quoted "schema"
            +:+ " must be a dictionary." +:+ nl +:+ spaces 16).
    unfold template, quoted. rewrite !append_assoc. reflexivity.
Qed.

(** What the shape check does reject: a [schema] that is present and whose
    [typeof] is not "object", or that is an array.  The loop body throws
    the error that names the model, and the definition is left alone. *)
Lemma rejected_schema_fails
    (ver : version) (w : World) (identity : string) (schemas : Dict.t value)
    (st : State) (d : Def.t) :
  Dict.get identity (modules st) = Some d ->
  Def.schema d <> VUndefined ->
  schemaRejected (Def.schema d) = true ->
  compileDef ver w identity schemas st
  = mkRun (Throw (newError (engine w) (Msg.invalidSchema ver identity))) st []
  /\ mentions identity (Msg.invalidSchema ver identity).
Proof.
  intros Hget Hpresent Hrej. split; [|apply invalidSchema_names_identity].
  rewrite compileDef_run, Hget. cbv zeta.
  unfold defaulted, afterDefault.
  destruct (seq (typeof (Def.schema d)) "undefined") eqn:Hu.
  - exfalso. apply seq_true in Hu.
    destruct (Def.schema d); try discriminate. now apply Hpresent.
  - now rewrite Hrej.
Qed.

(** C6 at [null].  With one model [pet] whose [schema] is [null], nothing
    is rejected: [new Schema(null)] is called, the model is built and
    registered, and the external callback is called without an error. *)
Lemma null_schema_is_registered :
  Def.schema (Def.mk VNull VUndefined "Pet") <> VUndefined
  /\ events (initialize Classic
               (Sample.world (LoaderCalls false VUndefined (Sample.pet VNull)))
               (Sample.cfg Sample.hiding) Sample.fresh)
     = upToLoading (Sample.cfg Sample.hiding)
       ++ [SchemaCalled "pet" VNull; ModelCalled "Pet" (VSchema 7);
           CalledBack VUndefined]
  /\ models (final (initialize Classic
               (Sample.world (LoaderCalls false VUndefined (Sample.pet VNull)))
               (Sample.cfg Sample.hiding) Sample.fresh))
     = Some [("pet", Model.mk 3 "Pet" "pet")].
Proof. split; [discriminate|]. split; vm_compute; reflexivity. Qed.

(** ** More about dictionaries *)

Section DictShape.
Context {A : Type}.
Implicit Types (d : Dict.t A) (k : string) (a : A).

Lemma keys_set_In k k' a d :
  In k' (Dict.keys (Dict.set k a d)) <-> k' = k \/ In k' (Dict.keys d).
Proof.
  induction d as [|[k0 a0] d IH]; simpl.
  - intuition congruence.
  - destruct (String.eqb_spec k k0) as [->|Hne]; simpl.
    + intuition congruence.
    + rewrite IH. intuition congruence.
Qed.

Lemma set_NoDup k a d :
  List.NoDup (Dict.keys d) -> List.NoDup (Dict.keys (Dict.set k a d)).
Proof.
  induction d as [|[k0 a0] d IH]; simpl; intros Hnd.
  - constructor; [intros [] | constructor].
  - destruct (String.eqb_spec k k0) as [->|Hne]; simpl; [exact Hnd|].
    apply List.NoDup_cons_iff in Hnd as [Hnotin Hnd].
    apply List.NoDup_cons_iff. split; [|now apply IH].
    intros Hin. apply keys_set_In in Hin as [->|Hin]; [now apply Hne | now apply Hnotin].
Qed.

Lemma key_of_In k a d : In (k, a) d -> In k (Dict.keys d).
Proof. intros H. apply (in_map fst) in H. exact H. Qed.

Lemma In_get k a d : List.NoDup (Dict.keys d) -> In (k, a) d -> Dict.get k d = Some a.
Proof.
  induction d as [|[k0 a0] d IH]; simpl; [tauto|].
  intros Hnd [Heq|Hin].
  - injection Heq as -> ->. now rewrite String.eqb_refl.
  - apply List.NoDup_cons_iff in Hnd as [Hnotin Hnd].
    destruct (String.eqb_spec k k0) as [->|Hne]; [|now apply IH].
    exfalso. apply Hnotin. eapply key_of_In, Hin.
Qed.

Lemma get_set_is_Some k k' a d :
  k' = k \/ is_Some (Dict.get k' d) -> is_Some (Dict.get k' (Dict.set k a d)).
Proof.
  destruct (String.eqb_spec k k') as [->|Hne].
  - intros _. rewrite get_set_same. eauto.
  - intros [->|H]; [now contradiction Hne|].
    now rewrite get_set_other.
Qed.

Lemma assign_proto a d : Dict.assign Dict.proto a d = d.
Proof. reflexivity. Qed.

Lemma assign_other k a d : k <> Dict.proto -> Dict.assign k a d = Dict.set k a d.
Proof.
  intros Hne. unfold Dict.assign.
  destruct (String.eqb_spec k Dict.proto); [contradiction | reflexivity].
Qed.

Lemma assign_cases k a d :
  (k = Dict.proto /\ Dict.assign k a d = d)
  \/ (k <> Dict.proto /\ Dict.assign k a d = Dict.set k a d).
Proof.
  unfold Dict.assign. destruct (String.eqb_spec k Dict.proto); auto.
Qed.

Lemma assign_NoDup k a d :
  List.NoDup (Dict.keys d) -> List.NoDup (Dict.keys (Dict.assign k a d)).
Proof.
  destruct (assign_cases k a d) as [[_ ->]|[_ ->]]; [auto | apply set_NoDup].
Qed.

Lemma get_assign_same k a d :
  k <> Dict.proto -> Dict.get k (Dict.assign k a d) = Some a.
Proof. intros Hne. rewrite assign_other by exact Hne. apply get_set_same. Qed.

Lemma get_assign_other k k' a d :
  k <> k' -> Dict.get k' (Dict.assign k a d) = Dict.get k' d.
Proof.
  intros Hne. destruct (assign_cases k a d) as [[_ ->]|[_ ->]];
    [reflexivity | now apply get_set_other].
Qed.

Lemma get_assign_is_Some k k' a d :
  (k' = k /\ k <> Dict.proto) \/ is_Some (Dict.get k' d) ->
  is_Some (Dict.get k' (Dict.assign k a d)).
Proof.
  intros [[-> Hne]|H].
  - rewrite get_assign_same by exact Hne. eauto.
  - destruct (assign_cases k a d) as [[_ ->]|[_ ->]]; [exact H|].
    apply get_set_is_Some. now right.
Qed.

(** No key of a dictionary built by assignments is [__proto__]. *)
Lemma assign_keeps_proto_out k a d :
  ~ In Dict.proto (Dict.keys d) -> ~ In Dict.proto (Dict.keys (Dict.assign k a d)).
Proof.
  intros Hout. destruct (assign_cases k a d) as [[_ ->]|[Hne ->]]; [exact Hout|].
  intros Hin. apply keys_set_In in Hin as [Heq|Hin]; [now apply Hne | now apply Hout].
Qed.

End DictShape.


(** ** The registry and the global scope *)

Section Registry.
Variables (ver : version) (w : World) (cfg : Config).

Lemma defaulted_globalId (d : Def.t) : Def.globalId (defaulted d) = Def.globalId d.
Proof. unfold defaulted. destruct (seq _ _); reflexivity. Qed.

Lemma compileDef_final (identity : string) (schemas : Dict.t value) (st : State) :
  final (compileDef ver w identity schemas st)
  = match Dict.get identity (modules st) with
    | Some d => afterDefault identity d st
    | None => st
    end.
Proof.
  rewrite compileDef_run.
  destruct (Dict.get identity (modules st)) as [d|]; [|reflexivity].
  cbv zeta.
  destruct (schemaRejected _); [reflexivity|].
  destruct (seq _ _); [reflexivity|].
  destruct (seq _ _); reflexivity.
Qed.

Lemma compileDef_ok
    (identity : string) (schemas schemas' : Dict.t value) (st : State) :
  out (compileDef ver w identity schemas st) = Ok schemas' ->
  exists v, schemas' = Dict.assign identity v schemas.
Proof.
  rewrite compileDef_run.
  destruct (Dict.get identity (modules st)) as [d|]; [|discriminate].
  cbv zeta.
  destruct (schemaRejected _); [discriminate|].
  destruct (seq _ _).
  { cbn [out]. destruct (newSchema w _); [|discriminate].
    intros [= <-]. eauto. }
  destruct (seq _ _); [|discriminate].
  cbn [out]. destruct (interceptor w _ _); [|discriminate].
  intros [= <-]. eauto.
Qed.

Lemma compileDef_sameIds (identity : string) (schemas : Dict.t value) (st : State) :
  sameIds (modules st) (modules (final (compileDef ver w identity schemas st))).
Proof.
  rewrite compileDef_final. intros k.
  destruct (Dict.get identity (modules st)) as [d|] eqn:Hget; [|reflexivity].
  unfold afterDefault. destruct (seq _ _); [|reflexivity].
  cbn [modules withModules].
  destruct (String.eqb_spec identity k) as [->|Hne].
  - rewrite get_set_same, Hget. simpl. now rewrite defaulted_globalId.
  - now rewrite get_set_other.
Qed.

Lemma compileSchemas_sameIds
    (identities : list string) (schemas : Dict.t value) (st : State) :
  sameIds (modules st)
          (modules (final (compileSchemas ver w identities schemas st))).
Proof.
  revert schemas st.
  induction identities as [|identity rest IH]; intros schemas st.
  - intros k. reflexivity.
  - cbn [compileSchemas]. run.
    pose proof (compileDef_sameIds identity schemas st) as Hdef.
    destruct (compileDef ver w identity schemas st) as [[schemas'|t] s1 e1];
      run; [|exact Hdef].
    intros k. rewrite (IH schemas' s1 k). apply Hdef.
Qed.

Lemma compileSchemas_covers
    (identities : list string) (schemas schemas' : Dict.t value) (st : State) :
  out (compileSchemas ver w identities schemas st) = Ok schemas' ->
  (forall k, (In k identities /\ k <> Dict.proto) \/ is_Some (Dict.get k schemas) ->
             is_Some (Dict.get k schemas')).
Proof.
  revert schemas st.
  induction identities as [|identity rest IH]; intros schemas st.
  - cbn [compileSchemas]. run. intros [= <-] k [[[] _]|H]. exact H.
  - cbn [compileSchemas]. run.
    pose proof (compileDef_ok identity schemas) as Hok.
    specialize (Hok) with (st := st).
    destruct (compileDef ver w identity schemas st) as [[schemas1|t] s1 e1];
      run; [|discriminate].
    destruct (Hok schemas1 eq_refl) as [v ->].
    intros Hout k Hk. apply (IH _ _ Hout).
    destruct Hk as [[[->|Hk] Hne]|Hk].
    + right. apply get_assign_is_Some. now left.
    + now left.
    + right. apply get_assign_is_Some. now right.
Qed.

Lemma registerModel_run (identity : string) (schemaObj : value) (st : State) :
  registerModel w identity schemaObj st
  = match Dict.get identity (modules st) with
    | None => mkRun (Throw (VError (nullish (engine w) VUndefined "globalId"))) st []
    | Some def =>
        match newModel w (Def.globalId def) schemaObj with
        | Returns c =>
            mkRun (Ok tt)
                  (mkState (mongooseSet st)
                           (Some (Dict.assign identity
                                    (Model.mk c (Def.globalId def) identity)
                                    (default [] (models st))))
                           (global st) (modules st)
                           (hasAlreadyTriggeredCallback st))
                  [ModelCalled (Def.globalId def) schemaObj]
        | Throws e =>
            mkRun (Throw (VError e)) st [ModelCalled (Def.globalId def) schemaObj]
        end
    end.
Proof.
  unfold registerModel. run.
  destruct (Dict.get identity (modules st)) as [def|]; [|reflexivity].
  run. destruct (newModel w _ _); reflexivity.
Qed.

Lemma compileSchemas_proto_out
    (identities : list string) (schemas schemas' : Dict.t value) (st : State) :
  out (compileSchemas ver w identities schemas st) = Ok schemas' ->
  ~ In Dict.proto (Dict.keys schemas) -> ~ In Dict.proto (Dict.keys schemas').
Proof.
  revert schemas st.
  induction identities as [|identity rest IH]; intros schemas st.
  - cbn [compileSchemas]. run. now intros [= <-].
  - cbn [compileSchemas]. run.
    pose proof (compileDef_ok identity schemas) as Hok.
    specialize (Hok) with (st := st).
    destruct (compileDef ver w identity schemas st) as [[schemas1|t] s1 e1];
      run; [|discriminate].
    destruct (Hok schemas1 eq_refl) as [v ->].
    intros Hout Hproto. apply (IH _ _ Hout). now apply assign_keeps_proto_out.
Qed.

(** What [registerModels] leaves in [sails.models]. *)
Lemma registerModels_registry
    (mods : Dict.t Def.t) (schemas : Dict.t value) (st : State)
    (reg0 : Dict.t Model.t) :
  ~ In Dict.proto (Dict.keys schemas) ->
  models st = Some reg0 ->
  sameIds mods (modules st) ->
  out (registerModels w schemas st) = Ok tt ->
  exists reg1,
    models (final (registerModels w schemas st)) = Some reg1 /\
    (forall k, In k (Dict.keys schemas) \/ is_Some (Dict.get k reg0) ->
               is_Some (Dict.get k reg1)) /\
    ((forall k m, Dict.get k reg0 = Some m -> handleOf mods k m) ->
     forall k m, Dict.get k reg1 = Some m -> handleOf mods k m) /\
    (List.NoDup (Dict.keys reg0) -> List.NoDup (Dict.keys reg1)) /\
    (~ In Dict.proto (Dict.keys reg0) -> ~ In Dict.proto (Dict.keys reg1)).
Proof.
  revert st reg0.
  induction schemas as [|[identity schemaObj] rest IH];
    intros st reg0 Hproto Hreg Hids.
  - cbn [registerModels]. run. intros _. exists reg0.
    split; [exact Hreg|]. split; [|split; [|split]; auto].
    intros k [[]|H]. exact H.
  - cbn [Dict.keys map fst In] in Hproto.
    assert (Hown : identity <> Dict.proto) by (intros Heq; apply Hproto; now left).
    assert (Hrest : ~ In Dict.proto (Dict.keys rest))
      by (intros Hin; apply Hproto; now right).
    cbn [registerModels]. run. rewrite registerModel_run.
    destruct (Dict.get identity (modules st)) as [def|] eqn:Hdef; [|discriminate].
    destruct (newModel w (Def.globalId def) schemaObj) as [c|e]; [|discriminate].
    run. rewrite Hreg. cbn [default]. rewrite (assign_other identity) by exact Hown.
    set (m := Model.mk c (Def.globalId def) identity).
    set (st1 := mkState _ _ _ _ _).
    intros Hout.
    destruct (IH st1 (Dict.set identity m reg0) Hrest eq_refl Hids Hout)
      as (reg1 & Hfinal & Hcover & Hgood & Hnd & Hclean).
    exists reg1. split; [exact Hfinal|]. split; [|split; [|split]].
    + intros k Hk. apply Hcover. simpl in Hk.
      destruct Hk as [[->|Hk]|Hk].
      * right. apply get_set_is_Some. now left.
      * now left.
      * right. apply get_set_is_Some. now right.
    + intros Hgood0. apply Hgood. intros k m' Hget.
      destruct (String.eqb_spec identity k) as [->|Hne].
      * rewrite get_set_same in Hget. injection Hget as <-.
        split; [reflexivity|].
        specialize (Hids k). rewrite Hdef in Hids. simpl in Hids.
        destruct (Dict.get k mods) as [d|]; [|discriminate].
        exists d. split; [reflexivity|]. simpl in Hids. simpl. congruence.
      * rewrite get_set_other in Hget by exact Hne. now apply Hgood0.
    + intros Hnd0. apply Hnd. now apply set_NoDup.
    + intros Hclean0. apply Hclean. intros Hin.
      apply keys_set_In in Hin as [Heq|Hin]; [now apply Hown | now apply Hclean0].
Qed.

Lemma registerModels_keeps_global (schemas : Dict.t value) :
  Keeps global (registerModels w schemas).
Proof. apply registerModels_keeps. intros. apply registerModel_keeps_global. Qed.

Lemma registerModels_keeps_modules (schemas : Dict.t value) :
  Keeps modules (registerModels w schemas).
Proof. apply registerModels_keeps. intros. apply registerModel_keeps_modules. Qed.

End Registry.

(** ** Exposing the models *)

Lemma prepend_nil {A} (r : Run A) : prepend [] r = r.
Proof. destruct r; reflexivity. Qed.

Lemma assignGlobal_other (k name : string) (v : value) (g : gmap string value) :
  k <> name -> assignGlobal k v g !! name = g !! name.
Proof.
  intros Hne. unfold assignGlobal.
  destruct (String.eqb k Dict.proto); [reflexivity | now apply lookup_insert_ne].
Qed.


Lemma bindAll_other (reg : Dict.t Model.t) (g : gmap string value) (name : string) :
  ~ In name (displayNames reg) -> bindAll reg g !! name = g !! name.
Proof.
  revert g. induction reg as [|[k m] rest IH]; intros g Hnotin; [reflexivity|].
  cbn [bindAll]. rewrite IH.
  - apply assignGlobal_other. intros Heq. apply Hnotin. left. exact Heq.
  - intros Hin. apply Hnotin. right. exact Hin.
Qed.


Section Exposure.
Variables (ver : version) (w : World) (cfg : Config).

Lemma exposeModels_run (reg : Dict.t Model.t) (st : State) :
  out (exposeModels reg st) = Ok tt /\
  global (final (exposeModels reg st)) = bindAll reg (global st) /\
  models (final (exposeModels reg st)) = models st.
Proof.
  revert st. induction reg as [|[k m] rest IH]; intros st.
  - cbn [exposeModels]. run. auto.
  - cbn [exposeModels bindAll]. run. exact (IH _).
Qed.

Lemma exposeGlobals_run (st : State) :
  exposeGlobals w cfg st
  = match wantsGlobals (engine w) cfg with
    | Ok true => exposeModels (default [] (models st)) st
    | Ok false => mkRun (Ok tt) st []
    | Throw v => mkRun (Throw v) st []
    end.
Proof.
  unfold exposeGlobals. rewrite bind_split. reduce.
  destruct (wantsGlobals (engine w) cfg) as [[]|v]; reduce; try reflexivity.
  rewrite bind_split. reduce. now rewrite !prepend_nil.
Qed.


(** What a successful [try] block leaves behind. *)
Lemma loadedBody_success (st : State) :
  out (loadedBody ver w cfg st) = Ok tt ->
  exists reg,
    models (final (loadedBody ver w cfg st)) = Some reg /\
    (forall k, In k (Dict.keys (modules st)) -> k <> Dict.proto ->
               is_Some (Dict.get k reg)) /\
    (forall k m, Dict.get k reg = Some m -> handleOf (modules st) k m) /\
    (List.NoDup (Dict.keys reg) /\ ~ In Dict.proto (Dict.keys reg)) /\
    match wantsGlobals (engine w) cfg with
    | Ok true => global (final (loadedBody ver w cfg st)) = bindAll reg (global st)
    | Ok false => global (final (loadedBody ver w cfg st)) = global st
    | Throw _ => False
    end.
Proof.
  unfold loadedBody. run. intros Hout. run in Hout.
  pose proof (compileSchemas_covers ver w (Dict.keys (modules st)) []) as Hcover.
  pose proof (compileSchemas_proto_out ver w (Dict.keys (modules st)) []) as Hown.
  pose proof (compileSchemas_sameIds ver w (Dict.keys (modules st)) [] st) as Hids.
  pose proof (compileSchemas_keeps ver w global (Dict.keys (modules st)) []
                (compileDef_keeps_global ver w) st) as Hglobal.
  specialize Hcover with (st := st). specialize Hown with (st := st).
  destruct (compileSchemas ver w (Dict.keys (modules st)) [] st)
    as [[schemas|t] s1 e1]; run; run in Hout; [|discriminate].
  specialize (Hcover schemas eq_refl).
  specialize (Hown schemas eq_refl (fun H : In Dict.proto [] => H)).
  match goal with
  | |- context [registerModels w schemas ?s] => set (s2 := s) in *
  end.
  pose proof (registerModels_registry w (modules st) schemas s2 [] Hown eq_refl Hids)
    as Hreg.
  pose proof (registerModels_keeps_global w schemas s2) as Hglobal2.
  destruct (registerModels w schemas s2) as [[[]|t] s3 e3];
    run; run in Hout; [|discriminate].
  destruct (Hreg eq_refl) as (reg & Hmodels & Hcov & Hgood & Hnd & Hclean).
  exists reg.
  rewrite exposeGlobals_run in Hout |- *.
  destruct (exposeModels_run reg s3) as (_ & Hbind & Hkeep).
  assert (Hall : forall k, In k (Dict.keys (modules st)) -> k <> Dict.proto ->
                           is_Some (Dict.get k reg)).
  { intros k Hk Hne. apply Hcov. left.
    destruct (Hcover k (or_introl (conj Hk Hne))) as [v Hv].
    eapply key_of_In, get_In, Hv. }
  assert (Hgood' : forall k m, Dict.get k reg = Some m -> handleOf (modules st) k m).
  { apply Hgood. intros k m Hget. discriminate Hget. }
  assert (Hnd' : List.NoDup (Dict.keys reg) /\ ~ In Dict.proto (Dict.keys reg))
    by (split; [apply Hnd; constructor | apply Hclean; intros []]).
  destruct (wantsGlobals (engine w) cfg) as [[]|v].
  - rewrite Hmodels. change (default [] (Some reg)) with reg. run.
    rewrite Hkeep, Hbind, Hmodels, Hglobal2.
    subst s2. cbn [global]. rewrite Hglobal. auto.
  - run. rewrite Hmodels, Hglobal2.
    subst s2. cbn [global]. rewrite Hglobal. auto.
  - run in Hout. discriminate Hout.
Qed.

End Exposure.

Lemma wantsGlobals_flag (en : Engine) (cfg : Config) (b : bool) :
  globals cfg = VDict [("models", VBool b)] -> wantsGlobals en cfg = Ok b.
Proof. intros H. unfold wantsGlobals. rewrite H. reflexivity. Qed.

Lemma wantsGlobals_absent (en : Engine) (cfg : Config) :
  globals cfg = VUndefined -> wantsGlobals en cfg = Ok false.
Proof. intros H. unfold wantsGlobals. rewrite H. reflexivity. Qed.




(** Two models [Alpha] and [Beta], exposure enabled: the registry holds
    exactly the two handles, and [global] binds [Alpha] and [Beta] to
    them.  With exposure disabled the registry is the same and [global]
    stays empty. *)
Example alpha_and_beta_exposed :
  models (final (initialize Classic
                   (Sample.world (LoaderCalls false VUndefined Sample.two))
                   (Sample.cfg Sample.exposing) Sample.fresh))
  = Some [("alpha", Model.mk 3 "Alpha" "alpha"); ("beta", Model.mk 3 "Beta" "beta")]
  /\ global (final (initialize Classic
                      (Sample.world (LoaderCalls false VUndefined Sample.two))
                      (Sample.cfg Sample.exposing) Sample.fresh))
     = <["Beta" := VModel 3 "Beta" "beta"]> (<["Alpha" := VModel 3 "Alpha" "alpha"]> ∅).
Proof. split; vm_compute; reflexivity. Qed.

Example alpha_and_beta_hidden :
  models (final (initialize Classic
                   (Sample.world (LoaderCalls false VUndefined Sample.two))
                   (Sample.cfg Sample.hiding) Sample.fresh))
  = Some [("alpha", Model.mk 3 "Alpha" "alpha"); ("beta", Model.mk 3 "Beta" "beta")]
  /\ global (final (initialize Classic
                      (Sample.world (LoaderCalls false VUndefined Sample.two))
                      (Sample.cfg Sample.hiding) Sample.fresh))
     = ∅.
Proof. split; vm_compute; reflexivity. Qed.

(** * Further properties of the hook *)

(** ** The guard under repeated calls *)

Lemma cbEach_tripped (ver : version) (w : World) (errs : list value) (st : State) :
  hasAlreadyTriggeredCallback st = true ->
  callbacks (events (cbEach ver w errs st)) = [] /\
  final (cbEach ver w errs st) = st.
Proof.
  intros Hflag. induction errs as [|err rest IH]; [split; reflexivity|].
  cbn [cbEach]. run. rewrite (cb_tripped _ _ _ _ Hflag).
  destruct (truthy err); run; cbn [callbacks]; exact IH.
Qed.

(** X1.  However often [cb] is called, and whatever it is called with, the
    external callback is called for the first call only, with the
    argument of that call; once the flag is set no call reaches it. *)
Theorem repeated_calls_forward_only_the_first
    (ver : version) (w : World) (errs : list value) (st : State) :
  callbacks (events (cbEach ver w errs st))
  = if hasAlreadyTriggeredCallback st then []
    else match errs with
         | [] => []
         | err :: _ => [err]
         end.
Proof.
  destruct (hasAlreadyTriggeredCallback st) eqn:Hflag.
  - now apply cbEach_tripped.
  - destruct errs as [|err rest]; [reflexivity|].
    cbn [cbEach]. run. rewrite (cb_fresh _ _ _ _ Hflag).
    destruct (external w err); run; cbn [callbacks];
      rewrite (proj1 (cbEach_tripped ver w rest (withFlag true st) eq_refl));
      reflexivity.
Qed.

(** ** The shape of every run *)

Lemma early_of_builds (es : list event) :
  forallb builds es = true -> forallb early es = true /\ loads es = 0.
Proof.
  induction es as [|e es IH]; [split; reflexivity|].
  cbn [forallb]. intros H. apply andb_true_iff in H as [He Hes].
  destruct (IH Hes) as [IH1 IH2].
  destruct e; try discriminate He; cbn [forallb early loads]; rewrite IH1; auto.
Qed.

Lemma connects_of_early (es : list event) :
  forallb early es = true -> connects es = [].
Proof.
  induction es as [|e es IH]; [reflexivity|].
  cbn [forallb]. intros H. apply andb_true_iff in H as [He Hes].
  destruct e; try discriminate He; cbn [connects]; auto.
Qed.

Lemma connects_of_late (es : list event) :
  forallb late es = true -> connects es = [].
Proof.
  induction es as [|e es IH]; [reflexivity|].
  cbn [forallb]. intros H. apply andb_true_iff in H as [He Hes].
  destruct e; try discriminate He; cbn [connects]; auto.
Qed.

Lemma connects_app (a b : list event) : connects (a ++ b) = connects a ++ connects b.
Proof.
  induction a as [|e a IH]; [reflexivity|].
  destruct e; cbn [app connects]; rewrite ?IH; reflexivity.
Qed.

Lemma loads_app (a b : list event) : loads (a ++ b) = loads a + loads b.
Proof.
  induction a as [|e a IH]; [reflexivity|].
  destruct e; cbn [app loads]; rewrite ?IH; reflexivity.
Qed.

Lemma forallb_early_app (a b : list event) :
  forallb early a = true -> forallb early b = true -> forallb early (a ++ b) = true.
Proof. intros Ha Hb. now rewrite forallb_app, Ha, Hb. Qed.

(** Every run opens with the connection attempt and calls the external
    callback once; what precedes that call holds at most one call of the
    loader, made only when the connection stood; what follows it is there
    only when the callback threw.  What it threw then leaves [initialize],
    or is an exception nobody catches, or, if it tests false, is dropped
    by the guard with a warning. *)
Lemma initialize_shape (ver : version) (w : World) (cfg : Config) (st : State) :
  exists pre v post,
    events (initialize ver w cfg st)
    = ConnectCalled (uri cfg) (connectionOpts cfg) :: pre ++ CalledBack v :: post /\
    forallb early pre = true /\
    loads pre = match connect w (uri cfg) (connectionOpts cfg) with
                | None => 1
                | Some _ => 0
                end /\
    forallb late post = true /\
    (external w v = None -> post = [] /\ out (initialize ver w cfg st) = Ok tt) /\
    (forall t, external w v = Some t ->
               out (initialize ver w cfg st) = Throw t
               \/ In (Uncaught t) post
               \/ (truthy t = false /\
                   out (initialize ver w cfg st) = Ok tt /\
                   post = [LogWarn (Msg.calledAgain ver)])).
Proof.
  unfold initialize. run.
  set (st1 := mkState true (models st) (global st) (modules st) false).
  assert (Hflag1 : hasAlreadyTriggeredCallback st1 = false) by reflexivity.
  destruct (connect w (uri cfg) (connectionOpts cfg)) as [e|] eqn:Hc; run.
  { rewrite (cb_fresh _ _ _ st1 Hflag1). run.
    eexists [_], _, []. split; [reflexivity|].
    repeat split; try reflexivity.
    - match goal with Hn : external _ _ = None |- _ => now rewrite Hn end.
    - intros t Hs. rewrite Hs. now left. }
  destruct (loadModels w) as [e|sync err mods] eqn:Hl; run.
  { rewrite (cb_fresh _ _ _ st1 Hflag1). run.
    eexists [_; _; _], _, []. split; [reflexivity|].
    repeat split; try reflexivity.
    - match goal with Hn : external _ _ = None |- _ => now rewrite Hn end.
    - intros t Hs. rewrite Hs. now left. }
  unfold modulesLoaded. run.
  change (withModules mods st1) with (loadedState mods st).
  assert (Hflag2 : hasAlreadyTriggeredCallback (loadedState mods st) = false)
    by reflexivity.
  destruct (truthy err) eqn:Herr; run.
  { rewrite (cb_fresh _ _ _ _ Hflag2). run.
    destruct (external w err) as [e|] eqn:Hx; run.
    - destruct sync; run.
      + rewrite cb_tripped by reflexivity.
        destruct (truthy e) eqn:He; run;
          (eexists [_; _; _], err, _; split; [reflexivity|];
           rewrite Hx; repeat split; try reflexivity; try discriminate;
           intros t [= <-]; tauto).
      + eexists [_; _; _], err, _. split; [reflexivity|].
        rewrite Hx. repeat split; try reflexivity; try discriminate.
        intros t [= <-]. right. left. now left.
    - eexists [_; _; _], err, []. split; [reflexivity|].
      rewrite Hx. repeat split; try reflexivity. intros t Hs. discriminate Hs. }
  pose proof (loadedBody_keeps_flag ver w cfg (loadedState mods st)) as Hkeep.
  pose proof (loadedBody_emits ver w cfg (loadedState mods st)) as Hemit.
  destruct (loadedBody ver w cfg (loadedState mods st)) as [o s1 e1]; run.
  assert (Hs1 : hasAlreadyTriggeredCallback s1 = false) by exact Hkeep.
  destruct (early_of_builds e1 Hemit) as [Hearly Hloads].
  assert (Hpre : forallb early
                   (LogInfo Msg.connected
                    :: LogVerbose Msg.loading (pathsModels cfg)
                    :: LoadModelsCalled :: e1) = true)
    by (cbn [forallb early]; exact Hearly).
  assert (Hcount : loads (LogInfo Msg.connected
                          :: LogVerbose Msg.loading (pathsModels cfg)
                          :: LoadModelsCalled :: e1) = 1)
    by (cbn [loads]; now rewrite Hloads).
  destruct o as [[]|t0]; run;
    rewrite (cb_fresh _ _ _ s1 Hs1); run;
    (destruct (external w _) as [e|] eqn:Hx; run;
     [ rewrite ?cb_tripped by reflexivity; destruct (truthy e) eqn:He; run;
       destruct sync; run; rewrite ?cb_tripped by reflexivity;
       rewrite ?He; run
     | ]);
    (eexists (LogInfo Msg.connected
              :: LogVerbose Msg.loading (pathsModels cfg)
              :: LoadModelsCalled :: e1), _, _;
     split; [cbn [app]; rewrite <- ?app_assoc; cbn [app]; reflexivity|];
     split; [exact Hpre|]; split; [exact Hcount|];
     rewrite Hx;
     split; [reflexivity|];
     split; [first [ discriminate | intros _; split; reflexivity ]|];
     first [ intros t' H'; discriminate H'
           | intros t' [= <-];
             first [ left; reflexivity
                   | right; left; cbn [In]; tauto
                   | right; right; split; [exact He|]; split; reflexivity ] ]).
Qed.

Lemma loads_of_late (es : list event) : forallb late es = true -> loads es = 0.
Proof.
  induction es as [|e es IH]; [reflexivity|].
  cbn [forallb]. intros H. apply andb_true_iff in H as [He Hes].
  destruct e; try discriminate He; cbn [loads]; auto.
Qed.

(** X2.  When the external callback does not throw, [initialize] settles
    normally whatever went wrong before: the call of the callback is the
    last event of the run, nothing is left uncaught, and the guard is never
    entered a second time.  Every failure is reported through the callback
    alone. *)
Theorem errors_reach_the_callback_only
    (ver : version) (w : World) (cfg : Config) (st : State) :
  (forall v, external w v = None) ->
  out (initialize ver w cfg st) = Ok tt /\
  exists pre v,
    events (initialize ver w cfg st)
    = ConnectCalled (uri cfg) (connectionOpts cfg) :: pre ++ [CalledBack v] /\
    forallb early pre = true.
Proof.
  intros Hext.
  destruct (initialize_shape ver w cfg st)
    as (pre & v & post & Hev & Hpre & _ & _ & Hnone & _).
  destruct (Hnone (Hext v)) as [-> Hout].
  split; [exact Hout|]. now exists pre, v.
Qed.

Lemma errors_reach_the_callback_only_witness :
  out (initialize Atelier (Sample.world (LoaderThrows Sample.boom))
         (Sample.cfg Sample.hiding) Sample.fresh) = Ok tt /\
  exists pre v,
    events (initialize Atelier (Sample.world (LoaderThrows Sample.boom))
              (Sample.cfg Sample.hiding) Sample.fresh)
    = ConnectCalled (uri (Sample.cfg Sample.hiding))
                    (connectionOpts (Sample.cfg Sample.hiding))
      :: pre ++ [CalledBack v] /\
    forallb early pre = true.
Proof.
  apply (errors_reach_the_callback_only
           Atelier (Sample.world (LoaderThrows Sample.boom))
           (Sample.cfg Sample.hiding) Sample.fresh).
  intros v. reflexivity.
Defined.

(** X3.  What the external callback throws is handed on, unless it tests
    false: the promise of [initialize] is rejected with it, or it is an
    exception nobody catches (when the loader called back in a later
    turn).  Only a thrown value that tests false can end otherwise: the
    guard, called with it, logs its warning and returns, and [initialize]
    settles normally. *)
Theorem a_thrown_value_is_handed_on_unless_falsy
    (ver : version) (w : World) (cfg : Config) (st : State) (v t : value) :
  callbacks (events (initialize ver w cfg st)) = [v] ->
  external w v = Some t ->
  out (initialize ver w cfg st) = Throw t
  \/ In (Uncaught t) (events (initialize ver w cfg st))
  \/ (truthy t = false /\
      out (initialize ver w cfg st) = Ok tt /\
      In (LogWarn (Msg.calledAgain ver)) (events (initialize ver w cfg st))).
Proof.
  intros Hcb Hext.
  destruct (initialize_shape ver w cfg st)
    as (pre & v' & post & Hev & Hpre & _ & Hpost & _ & Hsome).
  rewrite Hev in Hcb |- *. cbn [callbacks] in Hcb.
  rewrite callbacks_app in Hcb. cbn [callbacks] in Hcb.
  rewrite (callbacks_none early pre (fun _ => eq_refl) Hpre) in Hcb.
  rewrite (callbacks_none late post (fun _ => eq_refl) Hpost) in Hcb.
  injection Hcb as ->.
  destruct (Hsome t Hext) as [Hout|[Hin|(Hfalsy & Hout & ->)]]; [now left| |].
  - right. left. right. apply in_or_app. right. right. exact Hin.
  - right. right. split; [exact Hfalsy|]. split; [exact Hout|].
    right. apply in_or_app. right. right. now left.
Qed.

Lemma a_thrown_value_is_handed_on_unless_falsy_witness :
  out (initialize Classic
         (mkWorld Sample.en (fun _ _ => None) (LoaderThrows Sample.boom)
                  (fun _ => Returns 7) (fun _ _ => Throws Sample.boom)
                  (fun _ _ => Returns 3) (fun _ => Some (VStr "no")))
         (Sample.cfg Sample.hiding) Sample.fresh)
  = Throw (VStr "no")
  \/ In (Uncaught (VStr "no"))
        (events (initialize Classic
           (mkWorld Sample.en (fun _ _ => None) (LoaderThrows Sample.boom)
                    (fun _ => Returns 7) (fun _ _ => Throws Sample.boom)
                    (fun _ _ => Returns 3) (fun _ => Some (VStr "no")))
           (Sample.cfg Sample.hiding) Sample.fresh))
  \/ (truthy (VStr "no") = false /\
      out (initialize Classic
             (mkWorld Sample.en (fun _ _ => None) (LoaderThrows Sample.boom)
                      (fun _ => Returns 7) (fun _ _ => Throws Sample.boom)
                      (fun _ _ => Returns 3) (fun _ => Some (VStr "no")))
             (Sample.cfg Sample.hiding) Sample.fresh) = Ok tt /\
      In (LogWarn (Msg.calledAgain Classic))
         (events (initialize Classic
            (mkWorld Sample.en (fun _ _ => None) (LoaderThrows Sample.boom)
                     (fun _ => Returns 7) (fun _ _ => Throws Sample.boom)
                     (fun _ _ => Returns 3) (fun _ => Some (VStr "no")))
            (Sample.cfg Sample.hiding) Sample.fresh))).
Proof.
  apply (a_thrown_value_is_handed_on_unless_falsy
           Classic
           (mkWorld Sample.en (fun _ _ => None) (LoaderThrows Sample.boom)
                    (fun _ => Returns 7) (fun _ _ => Throws Sample.boom)
                    (fun _ _ => Returns 3) (fun _ => Some (VStr "no")))
           (Sample.cfg Sample.hiding) Sample.fresh
           (VError Sample.boom) (VStr "no"));
    reflexivity.
Defined.

(** X4.  Every run makes one connection attempt, with the configured URI
    and options, as its first call; nothing is retried.  The loader is
    called once when the connection stands and not at all when it fails. *)
Theorem one_connection_attempt
    (ver : version) (w : World) (cfg : Config) (st : State) :
  connects (events (initialize ver w cfg st)) = [(uri cfg, connectionOpts cfg)]
  /\ (exists rest,
        events (initialize ver w cfg st)
        = ConnectCalled (uri cfg) (connectionOpts cfg) :: rest)
  /\ loads (events (initialize ver w cfg st))
     = match connect w (uri cfg) (connectionOpts cfg) with
       | None => 1
       | Some _ => 0
       end.
Proof.
  destruct (initialize_shape ver w cfg st)
    as (pre & v & post & Hev & Hpre & Hloads & Hpost & _ & _).
  rewrite Hev. split; [|split].
  - cbn [connects]. rewrite connects_app. cbn [connects].
    now rewrite (connects_of_early pre Hpre), (connects_of_late post Hpost).
  - eexists. reflexivity.
  - cbn [loads]. rewrite loads_app. cbn [loads].
    rewrite (loads_of_late post Hpost), Hloads.
    destruct (connect w (uri cfg) (connectionOpts cfg)); reflexivity.
Qed.

(** ** The runs that stop before the models *)

(** X5.  When the connection fails, the failure is logged and the external
    callback is called with a fresh [Error] that carries the message of
    the rejection and a stack of its own; the loader is not called, and
    [sails.models] and [global] stay as they were. *)
Theorem connection_failure_is_wrapped
    (ver : version) (w : World) (cfg : Config) (st : State) (e : Error) :
  connect w (uri cfg) (connectionOpts cfg) = Some e ->
  events (initialize ver w cfg st)
  = [ConnectCalled (uri cfg) (connectionOpts cfg);
     LogError Msg.connectFailed;
     CalledBack (VError (mkErr (message e) (stackOf (engine w) (message e))))]
  /\ out (initialize ver w cfg st)
     = match external w (newError (engine w) (message e)) with
       | None => Ok tt
       | Some t => Throw t
       end
  /\ models (final (initialize ver w cfg st)) = models st
  /\ global (final (initialize ver w cfg st)) = global st.
Proof.
  intros Hc. unfold initialize. run. rewrite Hc. run.
  rewrite cb_fresh by reflexivity. run.
  destruct (external w _); repeat split; reflexivity.
Qed.

Lemma connection_failure_is_wrapped_witness :
  events (initialize Classic
            (mkWorld Sample.en (fun _ _ => Some Sample.boom) (LoaderThrows Sample.boom)
                     (fun _ => Returns 7) (fun _ _ => Throws Sample.boom)
                     (fun _ _ => Returns 3) (fun _ => None))
            (Sample.cfg Sample.hiding) Sample.fresh)
  = [ConnectCalled (uri (Sample.cfg Sample.hiding))
                   (connectionOpts (Sample.cfg Sample.hiding));
     LogError Msg.connectFailed;
     CalledBack (VError (mkErr (message Sample.boom)
                               (stackOf Sample.en (message Sample.boom))))]
  /\ out (initialize Classic
            (mkWorld Sample.en (fun _ _ => Some Sample.boom) (LoaderThrows Sample.boom)
                     (fun _ => Returns 7) (fun _ _ => Throws Sample.boom)
                     (fun _ _ => Returns 3) (fun _ => None))
            (Sample.cfg Sample.hiding) Sample.fresh)
     = Ok tt
  /\ models (final (initialize Classic
            (mkWorld Sample.en (fun _ _ => Some Sample.boom) (LoaderThrows Sample.boom)
                     (fun _ => Returns 7) (fun _ _ => Throws Sample.boom)
                     (fun _ _ => Returns 3) (fun _ => None))
            (Sample.cfg Sample.hiding) Sample.fresh)) = None
  /\ global (final (initialize Classic
            (mkWorld Sample.en (fun _ _ => Some Sample.boom) (LoaderThrows Sample.boom)
                     (fun _ => Returns 7) (fun _ _ => Throws Sample.boom)
                     (fun _ _ => Returns 3) (fun _ => None))
            (Sample.cfg Sample.hiding) Sample.fresh)) = ∅.
Proof.
  apply (connection_failure_is_wrapped
           Classic
           (mkWorld Sample.en (fun _ _ => Some Sample.boom) (LoaderThrows Sample.boom)
                    (fun _ => Returns 7) (fun _ _ => Throws Sample.boom)
                    (fun _ _ => Returns 3) (fun _ => None))
           (Sample.cfg Sample.hiding) Sample.fresh Sample.boom).
  reflexivity.
Defined.

(** X6.  When the loader itself throws, before calling back, the external
    callback is called with the very error it threw; nothing is compiled
    or registered. *)
Theorem loader_exception_is_passed_through
    (ver : version) (w : World) (cfg : Config) (st : State) (e : Error) :
  connect w (uri cfg) (connectionOpts cfg) = None ->
  loadModels w = LoaderThrows e ->
  events (initialize ver w cfg st) = upToLoading cfg ++ [CalledBack (VError e)]
  /\ models (final (initialize ver w cfg st)) = models st
  /\ global (final (initialize ver w cfg st)) = global st
  /\ modules (final (initialize ver w cfg st)) = modules st.
Proof.
  intros Hc Hl. unfold initialize. run. rewrite Hc. run. rewrite Hl. run.
  rewrite cb_fresh by reflexivity. run.
  repeat split; reflexivity.
Qed.

Lemma loader_exception_is_passed_through_witness :
  events (initialize Atelier (Sample.world (LoaderThrows Sample.boom))
            (Sample.cfg Sample.exposing) Sample.fresh)
  = upToLoading (Sample.cfg Sample.exposing) ++ [CalledBack (VError Sample.boom)]
  /\ models (final (initialize Atelier (Sample.world (LoaderThrows Sample.boom))
            (Sample.cfg Sample.exposing) Sample.fresh)) = None
  /\ global (final (initialize Atelier (Sample.world (LoaderThrows Sample.boom))
            (Sample.cfg Sample.exposing) Sample.fresh)) = ∅
  /\ modules (final (initialize Atelier (Sample.world (LoaderThrows Sample.boom))
            (Sample.cfg Sample.exposing) Sample.fresh)) = [].
Proof.
  apply (loader_exception_is_passed_through
           Atelier (Sample.world (LoaderThrows Sample.boom))
           (Sample.cfg Sample.exposing) Sample.fresh Sample.boom);
    reflexivity.
Defined.

(** ** The run through the models *)

Section Loaded.
Variables (ver : version) (w : World) (cfg : Config).

(** When the loader hands over its dictionary without an error, the [try]
    block runs and its verdict is what the callback gets. *)
Lemma initialize_loaded
    (st : State) (sync : bool) (err : value) (mods : Dict.t Def.t) :
  connect w (uri cfg) (connectionOpts cfg) = None ->
  loadModels w = LoaderCalls sync err mods ->
  truthy err = false ->
  exists tail,
    events (initialize ver w cfg st)
    = upToLoading cfg ++ events (loadedBody ver w cfg (loadedState mods st))
        ++ CalledBack (verdict (loadedBody ver w cfg (loadedState mods st))) :: tail /\
    forallb quiet tail = true /\
    final (initialize ver w cfg st)
    = withFlag true (final (loadedBody ver w cfg (loadedState mods st))).
Proof.
  intros Hc Hl Herr. unfold initialize. run. rewrite Hc. run.
  rewrite Hl. run. unfold modulesLoaded. run.
  change (withModules mods (mkState true (models st) (global st) (modules st) false))
    with (loadedState mods st).
  rewrite Herr. run.
  pose proof (loadedBody_keeps_flag ver w cfg (loadedState mods st)) as Hkeep.
  unfold verdict.
  destruct (loadedBody ver w cfg (loadedState mods st)) as [o s1 e1]; run.
  assert (Hs1 : hasAlreadyTriggeredCallback s1 = false) by exact Hkeep.
  destruct o as [[]|t]; run;
    rewrite (cb_fresh _ _ _ s1 Hs1); run;
    (destruct (external w _) as [e|]; run;
     [ rewrite ?cb_tripped by reflexivity; destruct (truthy e) eqn:He; run;
       destruct sync; run; rewrite ?cb_tripped by reflexivity;
       rewrite ?He; run
     | ]);
    (eexists; split; [rewrite <- ?app_assoc; simpl; reflexivity|];
     split; reflexivity).
Qed.

Lemma callbacks_of_loaded (b : Run unit) (tail : list event) :
  forallb builds (events b) = true ->
  forallb quiet tail = true ->
  callbacks (upToLoading cfg ++ events b ++ CalledBack (verdict b) :: tail)
  = [verdict b].
Proof.
  intros Hb Htail. rewrite !callbacks_app. unfold upToLoading.
  cbn [callbacks app].
  rewrite (callbacks_none builds _ (fun _ => eq_refl) Hb).
  now rewrite (callbacks_none quiet _ (fun _ => eq_refl) Htail).
Qed.

(** A run that reports success went through the whole [try] block. *)
Lemma success_means_body_ok (st : State) :
  callbacks (events (initialize ver w cfg st)) = [VUndefined] ->
  exists sync err mods,
    loadModels w = LoaderCalls sync err mods /\
    out (loadedBody ver w cfg (loadedState mods st)) = Ok tt /\
    final (initialize ver w cfg st)
    = withFlag true (final (loadedBody ver w cfg (loadedState mods st))).
Proof.
  intros Hcb.
  destruct (initialize_paths ver w cfg st)
    as [(_ & _ & _ & v & Hv & Hne)
       | (sync & err & mods & tail & _ & Hl & _ & Hev & Htail & Hfinal)].
  { rewrite Hv in Hcb. injection Hcb as ->. now contradiction Hne. }
  exists sync, err, mods. split; [exact Hl|]. split; [|exact Hfinal].
  rewrite Hev in Hcb.
  rewrite (callbacks_of_loaded _ _ (loadedBody_emits ver w cfg _) Htail) in Hcb.
  injection Hcb as Hverdict. unfold verdict in Hverdict.
  destruct (out (loadedBody ver w cfg (loadedState mods st))) as [[]|t] eqn:E;
    [reflexivity|].
  destruct (loadedBody_raises ver w cfg _ t E) as [e ->]. discriminate.
Qed.

(** A [try] block that throws has written nothing to [global]. *)
Lemma loadedBody_throw_global (st : State) (v : value) :
  out (loadedBody ver w cfg st) = Throw v ->
  global (final (loadedBody ver w cfg st)) = global st.
Proof.
  unfold loadedBody. run. intros Hout. run in Hout.
  pose proof (compileSchemas_keeps ver w global (Dict.keys (modules st)) []
                (compileDef_keeps_global ver w) st) as Hglobal.
  destruct (compileSchemas ver w (Dict.keys (modules st)) [] st)
    as [[schemas|t] s1 e1]; run; run in Hout; [|exact Hglobal].
  match goal with
  | |- context [registerModels w schemas ?s] => set (s2 := s) in *
  end.
  pose proof (registerModels_keeps_global w schemas s2) as Hglobal2.
  destruct (registerModels w schemas s2) as [[[]|t] s3 e3];
    run; run in Hout; [|now rewrite Hglobal2].
  rewrite exposeGlobals_run in Hout |- *.
  destruct (wantsGlobals (engine w) cfg) as [[]|t].
  - run in Hout. rewrite (proj1 (exposeModels_run _ s3)) in Hout. discriminate Hout.
  - discriminate Hout.
  - run. now rewrite Hglobal2.
Qed.

(** The [try] block when a definition fails to compile. *)
Lemma loadedBody_compile_throw (st : State) (v : value) :
  out (compileSchemas ver w (Dict.keys (modules st)) [] st) = Throw v ->
  out (loadedBody ver w cfg st) = Throw v /\
  final (loadedBody ver w cfg st)
  = final (compileSchemas ver w (Dict.keys (modules st)) [] st) /\
  events (loadedBody ver w cfg st)
  = events (compileSchemas ver w (Dict.keys (modules st)) [] st).
Proof.
  unfold loadedBody. run.
  destruct (compileSchemas ver w (Dict.keys (modules st)) [] st)
    as [[schemas|t] s1 e1]; run; [discriminate|].
  intros [= ->]. auto.
Qed.

End Loaded.

(** ** Exactly one call of the callback *)

Section Reporting.
Variables (ver : version) (w : World) (cfg : Config).



End Reporting.


(** X7.  As soon as one definition fails to compile, the run is over: the
    external callback is called with what the loop threw, no model is
    built, and [sails.models] and [global] are exactly as they were. *)
Theorem a_failed_compilation_registers_nothing
    (ver : version) (w : World) (cfg : Config) (st : State)
    (sync : bool) (err : value) (mods : Dict.t Def.t) (v : value) :
  connect w (uri cfg) (connectionOpts cfg) = None ->
  loadModels w = LoaderCalls sync err mods ->
  truthy err = false ->
  out (compileSchemas ver w (Dict.keys mods) [] (loadedState mods st)) = Throw v ->
  callbacks (events (initialize ver w cfg st)) = [v]
  /\ forallb (fun e => negb (modelling e)) (events (initialize ver w cfg st)) = true
  /\ models (final (initialize ver w cfg st)) = models st
  /\ global (final (initialize ver w cfg st)) = global st.
Proof.
  intros Hc Hl Herr Hthrow.
  destruct (initialize_loaded ver w cfg st sync err mods Hc Hl Herr)
    as (tail & Hev & Htail & Hfinal).
  destruct (loadedBody_compile_throw ver w cfg (loadedState mods st) v Hthrow)
    as (Hout & Hfin & Hevb).
  pose proof (compileSchemas_emits ver w (Dict.keys mods) []
                (loadedState mods st)) as Hemit.
  cbn [loadedState modules] in *.
  rewrite Hev, Hfinal. split; [|split; [|split]].
  - rewrite (callbacks_of_loaded cfg _ _ (loadedBody_emits ver w cfg _) Htail).
    unfold verdict. now rewrite Hout.
  - rewrite !forallb_app. rewrite Hevb. cbn [forallb upToLoading modelling negb andb].
    apply andb_true_iff. split.
    + rewrite forallb_forall in Hemit |- *. intros e He.
      specialize (Hemit e He). destruct e; try discriminate Hemit; reflexivity.
    + rewrite forallb_forall in Htail |- *. intros e He.
      specialize (Htail e He). destruct e; try discriminate Htail; reflexivity.
  - cbn [withFlag models]. rewrite Hfin.
    apply (compileSchemas_keeps ver w models (Dict.keys mods) []
             (compileDef_keeps_models ver w) (loadedState mods st)).
  - cbn [withFlag global]. rewrite Hfin.
    apply (compileSchemas_keeps ver w global (Dict.keys mods) []
             (compileDef_keeps_global ver w) (loadedState mods st)).
Qed.

Lemma a_failed_compilation_registers_nothing_witness :
  callbacks (events (initialize Classic
                       (Sample.world (LoaderCalls false VUndefined (Sample.pet (VNum 3))))
                       (Sample.cfg Sample.exposing) Sample.fresh))
  = [newError Sample.en (Msg.invalidSchema Classic "pet")]
  /\ forallb (fun e => negb (modelling e))
       (events (initialize Classic
                  (Sample.world (LoaderCalls false VUndefined (Sample.pet (VNum 3))))
                  (Sample.cfg Sample.exposing) Sample.fresh)) = true
  /\ models (final (initialize Classic
                  (Sample.world (LoaderCalls false VUndefined (Sample.pet (VNum 3))))
                  (Sample.cfg Sample.exposing) Sample.fresh)) = None
  /\ global (final (initialize Classic
                  (Sample.world (LoaderCalls false VUndefined (Sample.pet (VNum 3))))
                  (Sample.cfg Sample.exposing) Sample.fresh)) = ∅.
Proof.
  apply (a_failed_compilation_registers_nothing
           Classic (Sample.world (LoaderCalls false VUndefined (Sample.pet (VNum 3))))
           (Sample.cfg Sample.exposing) Sample.fresh
           false VUndefined (Sample.pet (VNum 3))
           (newError Sample.en (Msg.invalidSchema Classic "pet")));
    reflexivity.
Defined.

(** X8.  [global] is written by a successful initialization only: on every
    run that does not call back with [undefined], it is as it was. *)
Theorem without_success_global_is_untouched
    (ver : version) (w : World) (cfg : Config) (st : State) :
  callbacks (events (initialize ver w cfg st)) <> [VUndefined] ->
  global (final (initialize ver w cfg st)) = global st.
Proof.
  intros Hfail.
  destruct (initialize_paths ver w cfg st)
    as [(_ & _ & Hglobal & _)
       | (sync & err & mods & tail & _ & _ & _ & Hev & Htail & Hfinal)];
    [exact Hglobal|].
  rewrite Hev in Hfail.
  rewrite (callbacks_of_loaded cfg _ _ (loadedBody_emits ver w cfg _) Htail)
    in Hfail.
  rewrite Hfinal. cbn [withFlag global].
  unfold verdict in Hfail.
  destruct (out (loadedBody ver w cfg (loadedState mods st))) as [[]|t] eqn:E;
    [now contradiction Hfail|].
  exact (loadedBody_throw_global ver w cfg (loadedState mods st) t E).
Qed.

Lemma without_success_global_is_untouched_witness :
  global (final (initialize Classic
                   (Sample.world (LoaderCalls false VUndefined Sample.custom))
                   (Sample.cfg Sample.exposing) Sample.fresh)) = ∅.
Proof.
  apply (without_success_global_is_untouched
           Classic (Sample.world (LoaderCalls false VUndefined Sample.custom))
           (Sample.cfg Sample.exposing) Sample.fresh).
  vm_compute. discriminate.
Defined.

Lemma displayNames_of_handles
    (mods : Dict.t Def.t) (reg : Dict.t Model.t) (name : string) :
  List.NoDup (Dict.keys reg) ->
  (forall k m, Dict.get k reg = Some m -> handleOf mods k m) ->
  In name (displayNames reg) ->
  In name (map (fun p => Def.globalId (snd p)) mods).
Proof.
  intros Hnd Hgood Hin. unfold displayNames in Hin.
  apply in_map_iff in Hin as ([k m] & <- & Hkm). cbn [snd].
  destruct (Hgood k m (In_get _ _ _ Hnd Hkm)) as (_ & d & Hd & ->).
  apply in_map_iff. exists (k, d). split; [reflexivity|].
  now apply get_In.
Qed.

(** X9.  The only names the hook ever binds in [global] are display names
    of the loader's definitions: at any other name [global] is, after any
    run, what it was before. *)
Theorem only_display_names_are_bound
    (ver : version) (w : World) (cfg : Config) (st : State) (name : string) :
  (forall sync err mods,
     loadModels w = LoaderCalls sync err mods ->
     ~ In name (map (fun p => Def.globalId (snd p)) mods)) ->
  global (final (initialize ver w cfg st)) !! name = global st !! name.
Proof.
  intros Hname.
  destruct (initialize_paths ver w cfg st)
    as [(_ & _ & Hglobal & _)
       | (sync & err & mods & tail & _ & Hl & _ & _ & _ & Hfinal)];
    [now rewrite Hglobal|].
  rewrite Hfinal. cbn [withFlag global].
  destruct (out (loadedBody ver w cfg (loadedState mods st))) as [[]|t] eqn:E.
  - destruct (loadedBody_success ver w cfg (loadedState mods st) E)
      as (reg & _ & _ & Hgood & [Hnd _] & Hexposed).
    destruct (wantsGlobals (engine w) cfg) as [[]|t]; [| |contradiction].
    + rewrite Hexposed. cbn [loadedState global].
      apply bindAll_other. intros Hin.
      apply (Hname sync err mods Hl).
      exact (displayNames_of_handles mods reg name Hnd Hgood Hin).
    + now rewrite Hexposed.
  - now rewrite (loadedBody_throw_global ver w cfg (loadedState mods st) t E).
Qed.

Lemma only_display_names_are_bound_witness :
  global (final (initialize Classic
                   (Sample.world (LoaderCalls false VUndefined Sample.two))
                   (Sample.cfg Sample.exposing) Sample.fresh)) !! "Gamma"
  = Sample.fresh.(global) !! "Gamma".
Proof.
  apply (only_display_names_are_bound
           Classic (Sample.world (LoaderCalls false VUndefined Sample.two))
           (Sample.cfg Sample.exposing) Sample.fresh "Gamma").
  intros sync err mods [= _ _ <-]. vm_compute.
  intros [H|[H|[]]]; discriminate H.
Defined.

(** X10.  [sails.config.globals: null] is an object to [typeof].  In
    [index.js], [configure] reads [models] off it and throws the engine's
    [TypeError]; the other version's [configure] does not look at it.  In
    both, [initialize] reads [models] off it once the models are built, so
    no run calls back without an error. *)
Theorem null_globals_never_succeeds
    (ver : version) (w : World) (cfg : Config) (st : State) :
  globals cfg = VNull ->
  configure Classic (engine w) cfg
  = Throw (VError (nullish (engine w) VNull "models"))
  /\ configure Atelier (engine w) cfg
     = configure Atelier (engine w)
         (mkConfig VUndefined (uri cfg) (connectionOpts cfg) (pathsModels cfg))
  /\ callbacks (events (initialize ver w cfg st)) <> [VUndefined].
Proof.
  intros Hnull. split; [|split].
  - unfold configure. rewrite Hnull. reflexivity.
  - reflexivity.
  - intros Hok.
    destruct (success_means_body_ok ver w cfg st Hok)
      as (sync & err & mods & _ & Hout & _).
    destruct (loadedBody_success ver w cfg (loadedState mods st) Hout)
      as (reg & _ & _ & _ & _ & Hexposed).
    unfold wantsGlobals in Hexposed. rewrite Hnull in Hexposed.
    exact Hexposed.
Qed.

Lemma null_globals_never_succeeds_witness :
  configure Classic Sample.en (Sample.cfg VNull)
  = Throw (VError (nullish Sample.en VNull "models"))
  /\ configure Atelier Sample.en (Sample.cfg VNull) = Ok tt
  /\ callbacks (events (initialize Atelier
                          (Sample.world (LoaderCalls false VUndefined Sample.two))
                          (Sample.cfg VNull) Sample.fresh))
     <> [VUndefined].
Proof.
  exact (null_globals_never_succeeds
           Atelier (Sample.world (LoaderCalls false VUndefined Sample.two))
           (Sample.cfg VNull) Sample.fresh eq_refl).
Defined.

(** ** The order of the stages *)

Lemma staged_without_models (es : list event) :
  forallb (fun e => negb (modelling e)) es = true -> staged es = true.
Proof.
  induction es as [|e es IH]; [reflexivity|].
  cbn [forallb staged]. intros H. apply andb_true_iff in H as [He Hes].
  destruct (modelling e); [discriminate He | now apply IH].
Qed.

Lemma staged_without_schemas (es : list event) :
  forallb (fun e => negb (compiling e)) es = true -> staged es = true.
Proof.
  induction es as [|e es IH]; [reflexivity|].
  cbn [forallb staged]. intros H. apply andb_true_iff in H as [He Hes].
  destruct (modelling e); [exact Hes | now apply IH].
Qed.

Lemma staged_app (es es' : list event) :
  forallb (fun e => negb (modelling e)) es = true ->
  staged (es ++ es') = staged es'.
Proof.
  induction es as [|e es IH]; [reflexivity|].
  cbn [forallb staged app]. intros H. apply andb_true_iff in H as [He Hes].
  destruct (modelling e); [discriminate He | now apply IH].
Qed.

Lemma forallb_weaken (P Q : event -> bool) (es : list event) :
  (forall e, P e = true -> Q e = true) ->
  forallb P es = true -> forallb Q es = true.
Proof.
  intros HPQ. rewrite !forallb_forall. intros H e He. apply HPQ, H, He.
Qed.

Lemma nothing_nil (es : list event) : forallb nothing es = true -> es = [].
Proof. destruct es; [reflexivity | discriminate]. Qed.

(** The [try] block compiles, then builds. *)
Lemma loadedBody_stages
    (ver : version) (w : World) (cfg : Config) (st : State) :
  exists cs ms,
    events (loadedBody ver w cfg st) = cs ++ ms /\
    forallb compiling cs = true /\ forallb modelling ms = true.
Proof.
  unfold loadedBody. run.
  pose proof (compileSchemas_emits ver w (Dict.keys (modules st)) [] st) as Hc.
  destruct (compileSchemas ver w (Dict.keys (modules st)) [] st)
    as [[schemas|t] s1 e1]; run.
  2: { exists e1, []. rewrite app_nil_r. auto. }
  match goal with
  | |- context [registerModels w schemas ?s] => set (s2 := s) in *
  end.
  pose proof (registerModels_emits w schemas s2) as Hm.
  destruct (registerModels w schemas s2) as [[[]|t] s3 e3]; run.
  2: { exists e1, e3. auto. }
  pose proof (exposeGlobals_emits w cfg s3) as Hn.
  apply nothing_nil in Hn. rewrite Hn, app_nil_r.
  exists e1, e3. auto.
Qed.

(** X11.  The two loops do not interleave: on every run, once
    [mongoose.model] has been called, no schema is compiled and no
    [constructSchema] is called any more. *)
Theorem schemas_are_compiled_before_any_model_is_built
    (ver : version) (w : World) (cfg : Config) (st : State) :
  staged (events (initialize ver w cfg st)) = true.
Proof.
  destruct (initialize_paths ver w cfg st)
    as [(Hquiet & _)
       | (sync & err & mods & tail & _ & _ & _ & Hev & Htail & _)].
  - apply staged_without_models.
    revert Hquiet. apply forallb_weaken. intros e. now destruct e.
  - rewrite Hev.
    destruct (loadedBody_stages ver w cfg (loadedState mods st))
      as (cs & ms & -> & Hcs & Hms).
    rewrite staged_app by reflexivity.
    rewrite <- app_assoc. rewrite staged_app.
    2: { revert Hcs. apply forallb_weaken. intros e. now destruct e. }
    apply staged_without_schemas. rewrite forallb_app.
    apply andb_true_iff. split.
    + revert Hms. apply forallb_weaken. intros e. now destruct e.
    + cbn [forallb compiling negb andb].
      revert Htail. apply forallb_weaken. intros e. now destruct e.
Qed.

(** ** Errors of the constructors *)

Section Constructors.
Variables (ver : version) (w : World) (cfg : Config).

(** A call that compiles or builds is a call of the [try] block. *)
Lemma body_event (st : State) (ev : event) :
  In ev (events (initialize ver w cfg st)) ->
  builds ev = true ->
  exists sync err mods tail,
    loadModels w = LoaderCalls sync err mods /\
    events (initialize ver w cfg st)
    = upToLoading cfg ++ events (loadedBody ver w cfg (loadedState mods st))
        ++ CalledBack (verdict (loadedBody ver w cfg (loadedState mods st))) :: tail /\
    forallb quiet tail = true /\
    final (initialize ver w cfg st)
    = withFlag true (final (loadedBody ver w cfg (loadedState mods st))) /\
    In ev (events (loadedBody ver w cfg (loadedState mods st))).
Proof.
  intros Hin Hbuilds.
  destruct (initialize_paths ver w cfg st)
    as [(Hquiet & _)
       | (sync & err & mods & tail & _ & Hl & _ & Hev & Htail & Hfinal)].
  - exfalso. rewrite forallb_forall in Hquiet.
    specialize (Hquiet _ Hin). rewrite Hbuilds in Hquiet. discriminate.
  - exists sync, err, mods, tail. repeat (split; [assumption|]).
    rewrite Hev in Hin.
    apply in_app_or in Hin as [Hin|Hin].
    { exfalso. unfold upToLoading in Hin. simpl in Hin.
      destruct Hin as [<-|[<-|[<-|[<-|[]]]]]; discriminate. }
    apply in_app_or in Hin as [Hin|[<-|Hin]]; [exact Hin|discriminate|].
    exfalso. rewrite forallb_forall in Htail. specialize (Htail _ Hin).
    destruct ev; discriminate.
Qed.

Lemma compileDef_schema_error
    (identity' : string) (schemas : Dict.t value) (st : State)
    (identity : string) (dict : value) (e : Error) :
  In (SchemaCalled identity dict)
     (events (compileDef ver w identity' schemas st)) ->
  newSchema w dict = Throws e ->
  out (compileDef ver w identity' schemas st) = Throw (VError e).
Proof.
  intros Hin Hthrows. rewrite compileDef_run in *.
  destruct (Dict.get identity' (modules st)) as [d|]; [|contradiction].
  cbv zeta in *.
  destruct (schemaRejected _); [contradiction|].
  destruct (seq (typeof (Def.constructSchema d)) "undefined").
  - destruct Hin as [Hin|[]]. injection Hin as <- <-.
    run. now rewrite Hthrows.
  - destruct (seq (typeof (Def.constructSchema d)) "function"); [|contradiction].
    destruct Hin as [Hin|[]]. discriminate.
Qed.

Lemma compileSchemas_schema_error
    (identities : list string) (schemas : Dict.t value) (st : State)
    (identity : string) (dict : value) (e : Error) :
  In (SchemaCalled identity dict)
     (events (compileSchemas ver w identities schemas st)) ->
  newSchema w dict = Throws e ->
  out (compileSchemas ver w identities schemas st) = Throw (VError e).
Proof.
  revert schemas st.
  induction identities as [|identity' rest IH]; intros schemas st Hin Hthrows.
  - contradiction.
  - cbn [compileSchemas] in *. run. run in Hin.
    pose proof (compileDef_schema_error identity' schemas st identity dict e)
      as Hdef.
    destruct (compileDef ver w identity' schemas st) as [[schemas'|t] s1 e1];
      run; run in Hin.
    + apply in_app_or in Hin as [Hin|Hin].
      * specialize (Hdef Hin Hthrows). discriminate.
      * now apply IH.
    + now apply Hdef.
Qed.

Lemma loadedBody_schema_error
    (st : State) (identity : string) (dict : value) (e : Error) :
  In (SchemaCalled identity dict) (events (loadedBody ver w cfg st)) ->
  newSchema w dict = Throws e ->
  out (loadedBody ver w cfg st) = Throw (VError e) /\
  models (final (loadedBody ver w cfg st)) = models st.
Proof.
  intros Hin Hthrows. unfold loadedBody in *. run. run in Hin.
  pose proof (compileSchemas_schema_error
                (Dict.keys (modules st)) [] st identity dict e) as Hc.
  pose proof (compileSchemas_keeps ver w models (Dict.keys (modules st)) []
                (compileDef_keeps_models ver w) st) as Hkeep.
  destruct (compileSchemas ver w (Dict.keys (modules st)) [] st)
    as [[schemas|t] s1 e1]; reduce.
  - rewrite events_prepend in Hin.
    apply in_app_or in Hin as [Hin|Hin].
    + specialize (Hc Hin Hthrows). discriminate.
    + apply (Emits_In _ _ s1 _ (registration_emits w cfg schemas)) in Hin.
      discriminate.
  - specialize (Hc Hin Hthrows). split; [congruence | exact Hkeep].
Qed.

Lemma registerModels_model_error
    (schemas : Dict.t value) (st : State) (name : string) (schemaObj : value)
    (e : Error) :
  In (ModelCalled name schemaObj) (events (registerModels w schemas st)) ->
  newModel w name schemaObj = Throws e ->
  out (registerModels w schemas st) = Throw (VError e).
Proof.
  revert st.
  induction schemas as [|[identity s] rest IH]; intros st Hin Hthrows.
  - contradiction.
  - cbn [registerModels] in *. run. run in Hin.
    rewrite registerModel_run in *.
    destruct (Dict.get identity (modules st)) as [def|]; [|contradiction].
    destruct (newModel w (Def.globalId def) s) as [c|e'] eqn:Hnew;
      run; run in Hin.
    + destruct Hin as [Hin|Hin]; [|now apply IH].
      injection Hin as <- <-. congruence.
    + destruct Hin as [Hin|[]]. injection Hin as <- <-. congruence.
Qed.

(** Whatever the second loop leaves in [sails.models], whether it runs to
    its end or not, was there before or is a constructor [mongoose.model]
    returned in this loop, with the display name and identity set. *)
Lemma registerModels_only_built
    (schemas : Dict.t value) (st : State) (reg0 : Dict.t Model.t) :
  models st = Some reg0 ->
  exists reg1,
    models (final (registerModels w schemas st)) = Some reg1 /\
    forall k m,
      Dict.get k reg1 = Some m ->
      Dict.get k reg0 = Some m
      \/ exists d v c,
           Dict.get k (modules st) = Some d /\
           newModel w (Def.globalId d) v = Returns c /\
           m = Model.mk c (Def.globalId d) k.
Proof.
  revert st reg0.
  induction schemas as [|[identity s] rest IH]; intros st reg0 Hreg.
  - cbn [registerModels]. run. exists reg0. auto.
  - cbn [registerModels]. run. rewrite registerModel_run.
    destruct (Dict.get identity (modules st)) as [def|] eqn:Hdef;
      [|exists reg0; auto].
    destruct (newModel w (Def.globalId def) s) as [c|e'] eqn:Hnew; run;
      [|exists reg0; auto].
    rewrite Hreg. change (default [] (Some reg0)) with reg0.
    set (m0 := Model.mk c (Def.globalId def) identity).
    set (st1 := mkState _ _ _ _ _).
    destruct (IH st1 (Dict.assign identity m0 reg0) eq_refl) as (reg1 & Hfinal & Hall).
    exists reg1. split; [exact Hfinal|].
    intros k m Hget. destruct (Hall k m Hget) as [Hold|Hnew']; [|now right].
    destruct (assign_cases identity m0 reg0) as [[_ Heq]|[_ Heq]];
      rewrite Heq in Hold; [now left|].
    destruct (String.eqb_spec identity k) as [Hk|Hne].
    + subst k. rewrite get_set_same in Hold. injection Hold as <-.
      right. now exists def, s, c.
    + rewrite get_set_other in Hold by exact Hne. now left.
Qed.

Lemma loadedBody_model_error
    (st : State) (name : string) (schemaObj : value) (e : Error) :
  In (ModelCalled name schemaObj) (events (loadedBody ver w cfg st)) ->
  newModel w name schemaObj = Throws e ->
  out (loadedBody ver w cfg st) = Throw (VError e) /\
  exists reg,
    models (final (loadedBody ver w cfg st)) = Some reg /\
    forall k m,
      Dict.get k reg = Some m ->
      exists d v c,
        Dict.get k (modules st) = Some d /\
        newModel w (Def.globalId d) v = Returns c /\
        m = Model.mk c (Def.globalId d) k.
Proof.
  intros Hin Hthrows. unfold loadedBody in *. run. run in Hin.
  pose proof (compileSchemas_emits ver w (Dict.keys (modules st)) [] st) as Hc.
  pose proof (compileSchemas_sameIds ver w (Dict.keys (modules st)) [] st) as Hids.
  destruct (compileSchemas ver w (Dict.keys (modules st)) [] st)
    as [[schemas|t] s1 e1]; run; run in Hin.
  2: { exfalso. rewrite forallb_forall in Hc. specialize (Hc _ Hin).
       discriminate. }
  match goal with
  | |- context [registerModels w schemas ?s] => set (s2 := s) in *
  end.
  pose proof (registerModels_model_error schemas s2 name schemaObj e) as Hm.
  destruct (registerModels_only_built schemas s2 [] eq_refl)
    as (reg & Hreg & Hbuilt).
  apply in_app_or in Hin as [Hin|Hin].
  { exfalso. rewrite forallb_forall in Hc. specialize (Hc _ Hin).
    discriminate. }
  assert (Hmine : forall k m,
             Dict.get k reg = Some m ->
             exists d v c,
               Dict.get k (modules st) = Some d /\
               newModel w (Def.globalId d) v = Returns c /\
               m = Model.mk c (Def.globalId d) k).
  { intros k m Hget.
    destruct (Hbuilt k m Hget) as [Hold|(d' & v & c & Hd' & Hnew & ->)];
      [discriminate Hold|].
    subst s2. cbn [modules] in Hd'.
    specialize (Hids k). cbn [final] in Hids. rewrite Hd' in Hids.
    destruct (Dict.get k (modules st)) as [d|]; [|discriminate Hids].
    cbn in Hids. injection Hids as Hname.
    exists d, v, c. rewrite <- Hname. auto. }
  destruct (registerModels w schemas s2) as [[[]|t] s3 e3]; run; run in Hin.
  - apply in_app_or in Hin as [Hin|Hin].
    + specialize (Hm Hin Hthrows). discriminate.
    + apply (Emits_In _ _ s3 _ (exposeGlobals_emits w cfg)) in Hin.
      discriminate.
  - specialize (Hm Hin Hthrows). split; [congruence|]. now exists reg.
Qed.

End Constructors.

(** X12.  An error thrown by [new mongoose.Schema] is not rewritten: the
    external callback is called with that very error, and [sails.models]
    and [global] are as they were. *)
Theorem schema_constructor_error_is_passed_through
    (ver : version) (w : World) (cfg : Config) (st : State)
    (identity : string) (dict : value) (e : Error) :
  In (SchemaCalled identity dict) (events (initialize ver w cfg st)) ->
  newSchema w dict = Throws e ->
  callbacks (events (initialize ver w cfg st)) = [VError e]
  /\ models (final (initialize ver w cfg st)) = models st
  /\ global (final (initialize ver w cfg st)) = global st.
Proof.
  intros Hin Hthrows.
  destruct (body_event ver w cfg st _ Hin eq_refl)
    as (sync & err & mods & tail & _ & Hev & Htail & Hfinal & Hbody).
  destruct (loadedBody_schema_error ver w cfg _ _ _ _ Hbody Hthrows)
    as [Hout Hmodels].
  rewrite Hev, Hfinal. cbn [withFlag models global].
  split; [|split].
  - rewrite (callbacks_of_loaded cfg _ _ (loadedBody_emits ver w cfg _) Htail).
    unfold verdict. now rewrite Hout.
  - exact Hmodels.
  - exact (loadedBody_throw_global ver w cfg (loadedState mods st) _ Hout).
Qed.

Lemma schema_constructor_error_is_passed_through_witness :
  callbacks (events (initialize Atelier
                       (Sample.noSchema (LoaderCalls false VUndefined Sample.two))
                       (Sample.cfg Sample.exposing) Sample.fresh))
  = [VError Sample.boom]
  /\ models (final (initialize Atelier
                       (Sample.noSchema (LoaderCalls false VUndefined Sample.two))
                       (Sample.cfg Sample.exposing) Sample.fresh)) = None
  /\ global (final (initialize Atelier
                       (Sample.noSchema (LoaderCalls false VUndefined Sample.two))
                       (Sample.cfg Sample.exposing) Sample.fresh)) = ∅.
Proof.
  apply (schema_constructor_error_is_passed_through
           Atelier (Sample.noSchema (LoaderCalls false VUndefined Sample.two))
           (Sample.cfg Sample.exposing) Sample.fresh
           "alpha" (VDict []) Sample.boom).
  - vm_compute. tauto.
  - reflexivity.
Defined.

(** X13.  An error thrown by [mongoose.model] reaches the external callback
    as it is, and [global] is as it was; but [sails.models] is not: it has
    been replaced by a new dictionary, which stays, and which holds
    nothing but constructors [mongoose.model] returned in this run, for
    identities of the loader's dictionary.  Whatever it held before is
    gone. *)
Theorem model_constructor_error_is_passed_through
    (ver : version) (w : World) (cfg : Config) (st : State)
    (sync : bool) (err : value) (mods : Dict.t Def.t)
    (name : string) (schemaObj : value) (e : Error) :
  loadModels w = LoaderCalls sync err mods ->
  In (ModelCalled name schemaObj) (events (initialize ver w cfg st)) ->
  newModel w name schemaObj = Throws e ->
  callbacks (events (initialize ver w cfg st)) = [VError e]
  /\ global (final (initialize ver w cfg st)) = global st
  /\ exists registry,
       models (final (initialize ver w cfg st)) = Some registry /\
       forall identity m,
         Dict.get identity registry = Some m ->
         exists d built c,
           Dict.get identity mods = Some d /\
           newModel w (Def.globalId d) built = Returns c /\
           m = Model.mk c (Def.globalId d) identity.
Proof.
  intros Hl Hin Hthrows.
  destruct (body_event ver w cfg st _ Hin eq_refl)
    as (sync' & err' & mods' & tail & Hl' & Hev & Htail & Hfinal & Hbody).
  rewrite Hl in Hl'. injection Hl' as <- <- <-.
  destruct (loadedBody_model_error ver w cfg _ _ _ _ Hbody Hthrows)
    as (Hout & reg & Hreg & Hbuilt).
  rewrite Hev, Hfinal. cbn [withFlag models global].
  split; [|split].
  - rewrite (callbacks_of_loaded cfg _ _ (loadedBody_emits ver w cfg _) Htail).
    unfold verdict. now rewrite Hout.
  - exact (loadedBody_throw_global ver w cfg (loadedState mods st) _ Hout).
  - exists reg. split; [exact Hreg | exact Hbuilt].
Qed.

Lemma model_constructor_error_is_passed_through_witness :
  callbacks (events (initialize Classic
                       (Sample.noModel (LoaderCalls false VUndefined Sample.two))
                       (Sample.cfg Sample.exposing)
                       (mkState false (Some [("old", Model.mk 1 "Old" "old")])
                                ∅ [] false)))
  = [VError Sample.boom]
  /\ global (final (initialize Classic
                       (Sample.noModel (LoaderCalls false VUndefined Sample.two))
                       (Sample.cfg Sample.exposing)
                       (mkState false (Some [("old", Model.mk 1 "Old" "old")])
                                ∅ [] false))) = ∅
  /\ exists registry,
       models (final (initialize Classic
                       (Sample.noModel (LoaderCalls false VUndefined Sample.two))
                       (Sample.cfg Sample.exposing)
                       (mkState false (Some [("old", Model.mk 1 "Old" "old")])
                                ∅ [] false))) = Some registry /\
       forall identity m,
         Dict.get identity registry = Some m ->
         exists d built c,
           Dict.get identity Sample.two = Some d /\
           newModel (Sample.noModel (LoaderCalls false VUndefined Sample.two))
                    (Def.globalId d) built = Returns c /\
           m = Model.mk c (Def.globalId d) identity.
Proof.
  apply (model_constructor_error_is_passed_through
           Classic (Sample.noModel (LoaderCalls false VUndefined Sample.two))
           (Sample.cfg Sample.exposing)
           (mkState false (Some [("old", Model.mk 1 "Old" "old")]) ∅ [] false)
           false VUndefined Sample.two
           "Alpha" (VSchema 7) Sample.boom).
  - reflexivity.
  - vm_compute. tauto.
  - reflexivity.
Defined.

(** ** What a successful run says about the definitions *)

Lemma defaulted_idem (d : Def.t) : defaulted (defaulted d) = defaulted d.
Proof.
  unfold defaulted.
  destruct (seq (typeof (Def.schema d)) "undefined") eqn:E; cbn; [reflexivity|].
  now rewrite E.
Qed.

Lemma constructSchema_defaulted (d : Def.t) :
  Def.constructSchema (defaulted d) = Def.constructSchema d.
Proof. unfold defaulted. now destruct (seq _ _). Qed.

Lemma wellFormed_defaulted (d : Def.t) : wellFormed (defaulted d) = wellFormed d.
Proof.
  unfold wellFormed. now rewrite defaulted_idem, constructSchema_defaulted.
Qed.

Lemma afterDefault_modules (identity k : string) (d : Def.t) (st : State) :
  Dict.get identity (modules st) = Some d ->
  Dict.get k (modules (afterDefault identity d st))
  = if String.eqb identity k then Some (defaulted d) else Dict.get k (modules st).
Proof.
  intros Hget. unfold afterDefault, defaulted.
  destruct (seq (typeof (Def.schema d)) "undefined"); cbn [withModules modules];
    destruct (String.eqb_spec identity k) as [<-|Hne].
  - apply get_set_same.
  - now apply get_set_other.
  - exact Hget.
  - reflexivity.
Qed.

Section Definitions.
Variables (ver : version) (w : World) (cfg : Config).

Lemma compileDef_accepts
    (identity : string) (schemas schemas' : Dict.t value) (st : State) :
  out (compileDef ver w identity schemas st) = Ok schemas' ->
  exists d, Dict.get identity (modules st) = Some d /\ wellFormed d = true.
Proof.
  rewrite compileDef_run.
  destruct (Dict.get identity (modules st)) as [d|]; [|discriminate].
  cbv zeta. intros Hout. exists d. split; [reflexivity|]. unfold wellFormed.
  destruct (schemaRejected _); [discriminate|].
  destruct (seq (typeof (Def.constructSchema d)) "undefined"); [reflexivity|].
  destruct (seq (typeof (Def.constructSchema d)) "function");
    [reflexivity | discriminate].
Qed.

(** A loop that runs to its end has accepted every definition it went
    through, and left each with a schema. *)
Lemma compileSchemas_defaults
    (identities : list string) (schemas schemas' : Dict.t value) (st : State) :
  out (compileSchemas ver w identities schemas st) = Ok schemas' ->
  (forall k d,
     In k identities -> Dict.get k (modules st) = Some d ->
     wellFormed d = true /\
     Dict.get k (modules (final (compileSchemas ver w identities schemas st)))
     = Some (defaulted d)) /\
  (forall k,
     ~ In k identities ->
     Dict.get k (modules (final (compileSchemas ver w identities schemas st)))
     = Dict.get k (modules st)).
Proof.
  revert schemas st.
  induction identities as [|identity rest IH]; intros schemas st.
  - cbn [compileSchemas]. run. intros _. split; [intros k d []|reflexivity].
  - cbn [compileSchemas]. run.
    pose proof (compileDef_accepts identity schemas) as Hacc.
    pose proof (compileDef_final ver w identity schemas st) as Hfin.
    specialize Hacc with (st := st).
    destruct (compileDef ver w identity schemas st) as [[s1|t] st1 e1];
      run; [|discriminate].
    destruct (Hacc s1 eq_refl) as (d0 & Hget0 & Hwf0).
    rewrite Hget0 in Hfin. cbn [final] in Hfin. subst st1.
    intros Hout. destruct (IH s1 _ Hout) as [IH1 IH2].
    pose proof (afterDefault_modules identity) as Hmods.
    split.
    + intros k d Hin Hget.
      destruct (in_dec String.string_dec k rest) as [Hr|Hnr].
      * specialize (Hmods k d0 st Hget0).
        destruct (String.eqb_spec identity k) as [Heq|Hne].
        -- subst k. assert (d = d0) as -> by congruence.
           destruct (IH1 identity (defaulted d0) Hr Hmods) as [Hwf Hlast].
           rewrite wellFormed_defaulted in Hwf.
           rewrite defaulted_idem in Hlast. auto.
        -- apply (IH1 k d Hr). now rewrite Hmods.
      * destruct Hin as [<-|Hin]; [|contradiction].
        assert (d = d0) as -> by congruence.
        split; [exact Hwf0|].
        rewrite (IH2 identity Hnr), (Hmods identity d0 st Hget0).
        now rewrite String.eqb_refl.
    + intros k Hnotin.
      rewrite IH2 by (intros Hin; apply Hnotin; now right).
      rewrite (Hmods k d0 st Hget0).
      destruct (String.eqb_spec identity k) as [Heq|Hne]; [|reflexivity].
      exfalso. apply Hnotin. now left.
Qed.

Lemma loadedBody_defaults (st : State) :
  out (loadedBody ver w cfg st) = Ok tt ->
  forall k d,
    Dict.get k (modules st) = Some d ->
    wellFormed d = true /\
    Dict.get k (modules (final (loadedBody ver w cfg st))) = Some (defaulted d).
Proof.
  intros Hout k d Hget. revert Hout. unfold loadedBody. run.
  pose proof (compileSchemas_defaults (Dict.keys (modules st)) []) as Hd.
  specialize Hd with (st := st).
  destruct (compileSchemas ver w (Dict.keys (modules st)) [] st)
    as [[schemas|t] s1 e1]; run; [|discriminate].
  destruct (Hd schemas eq_refl) as [Hd1 _].
  destruct (Hd1 k d (key_of_In _ _ _ (get_In _ _ _ Hget)) Hget) as [Hwf Hlast].
  cbn [final] in Hlast.
  match goal with
  | |- context [registerModels w schemas ?s] => set (s2 := s) in *
  end.
  pose proof (registerModels_keeps_modules w schemas s2) as Hk2.
  destruct (registerModels w schemas s2) as [[[]|t] s3 e3]; run; [|discriminate].
  intros _. split; [exact Hwf|].
  rewrite (exposeGlobals_keeps w cfg modules (fun _ _ _ => eq_refl) s3).
  cbn [final] in Hk2. rewrite Hk2. exact Hlast.
Qed.

Lemma loadedBody_keeps_mongoose : Keeps mongooseSet (loadedBody ver w cfg).
Proof.
  unfold loadedBody. frame.
  - apply compileSchemas_keeps. intros. unfold compileDef. frame.
  - apply registerModels_keeps. intros. unfold registerModel. frame.
  - apply exposeGlobals_keeps. intros. frame.
Qed.

End Definitions.

(** X14.  A run calls back without an error only if every definition of
    the loader's dictionary is well formed: its [schema] is absent or
    passes the shape check, and its [constructSchema] is absent or a
    function. *)
Theorem success_needs_well_formed_definitions
    (ver : version) (w : World) (cfg : Config) (st : State)
    (sync : bool) (err : value) (mods : Dict.t Def.t) :
  loadModels w = LoaderCalls sync err mods ->
  callbacks (events (initialize ver w cfg st)) = [VUndefined] ->
  forall identity d, Dict.get identity mods = Some d -> wellFormed d = true.
Proof.
  intros Hl Hok identity d Hget.
  destruct (success_means_body_ok ver w cfg st Hok)
    as (sync' & err' & mods' & Hl' & Hout & _).
  rewrite Hl in Hl'. injection Hl' as <- <- <-.
  exact (proj1 (loadedBody_defaults ver w cfg (loadedState mods st) Hout
                  identity d Hget)).
Qed.

Lemma success_needs_well_formed_definitions_witness :
  wellFormed (Def.mk VUndefined VUndefined "Beta") = true.
Proof.
  apply (success_needs_well_formed_definitions
           Classic (Sample.world (LoaderCalls false VUndefined Sample.two))
           (Sample.cfg Sample.exposing) Sample.fresh
           false VUndefined Sample.two eq_refl eq_refl "beta").
  reflexivity.
Defined.

(** X15.  The hook writes into the loader's definitions: after a run that
    calls back without an error, every definition that came without a
    [schema] has the empty dictionary as its [schema], and the others are
    as they were. *)
Theorem missing_schemas_are_filled_in_place
    (ver : version) (w : World) (cfg : Config) (st : State)
    (sync : bool) (err : value) (mods : Dict.t Def.t) :
  loadModels w = LoaderCalls sync err mods ->
  callbacks (events (initialize ver w cfg st)) = [VUndefined] ->
  forall identity d,
    Dict.get identity mods = Some d ->
    Dict.get identity (modules (final (initialize ver w cfg st)))
    = Some (if seq (typeof (Def.schema d)) "undefined"
            then Def.withSchema (VDict []) d else d).
Proof.
  intros Hl Hok identity d Hget.
  destruct (success_means_body_ok ver w cfg st Hok)
    as (sync' & err' & mods' & Hl' & Hout & Hfinal).
  rewrite Hl in Hl'. injection Hl' as <- <- <-.
  rewrite Hfinal. cbn [withFlag modules].
  exact (proj2 (loadedBody_defaults ver w cfg (loadedState mods st) Hout
                  identity d Hget)).
Qed.

Lemma missing_schemas_are_filled_in_place_witness :
  Dict.get "beta"
    (modules (final (initialize Classic
                       (Sample.world (LoaderCalls false VUndefined Sample.two))
                       (Sample.cfg Sample.exposing) Sample.fresh)))
  = Some (Def.mk (VDict []) VUndefined "Beta").
Proof.
  apply (missing_schemas_are_filled_in_place
           Classic (Sample.world (LoaderCalls false VUndefined Sample.two))
           (Sample.cfg Sample.exposing) Sample.fresh
           false VUndefined Sample.two eq_refl eq_refl
           "beta" (Def.mk VUndefined VUndefined "Beta")).
  reflexivity.
Defined.

Lemma invalidInterceptor_names_identity (ver : version) (identity : string) :
  mentions identity (Msg.invalidInterceptor ver identity).
Proof.
  destruct ver; unfold Msg.invalidInterceptor.
  - apply mentions_middle.
  - exists (nl +:+ "Invalid " +:+ quoted "constructSchema"
            +:+ " interceptor provided in model " +:+ dq),
           (dq +:+ "." +:+ nl +:+ "If provided, " +:+ quoted "constructSchema"
            +:+ " must be a function." +:+ nl +:+ spaces 16).
    unfold template, quoted. rewrite !append_assoc. reflexivity.
Qed.

(** X16.  A [constructSchema] that is neither absent nor a function ends
    the loop body with an error whose message names the model: nothing is
    called, and an empty dictionary filled in for a missing [schema]
    stays in the definition. *)
Theorem invalid_interceptor_fails
    (ver : version) (w : World) (identity : string) (schemas : Dict.t value)
    (st : State) (d : Def.t) :
  Dict.get identity (modules st) = Some d ->
  schemaRejected (Def.schema (defaulted d)) = false ->
  typeof (Def.constructSchema d) <> "undefined" ->
  typeof (Def.constructSchema d) <> "function" ->
  compileDef ver w identity schemas st
  = mkRun (Throw (newError (engine w) (Msg.invalidInterceptor ver identity)))
          (afterDefault identity d st) []
  /\ mentions identity (Msg.invalidInterceptor ver identity).
Proof.
  intros Hget Hshape Hundef Hfun.
  split; [|apply invalidInterceptor_names_identity].
  rewrite compileDef_run, Hget. cbv zeta. rewrite Hshape.
  destruct (String.eqb_spec (typeof (Def.constructSchema d)) "undefined")
    as [E|_]; [contradiction|].
  destruct (String.eqb_spec (typeof (Def.constructSchema d)) "function")
    as [E|_]; [contradiction|].
  unfold seq.
  destruct (String.eqb_spec (typeof (Def.constructSchema d)) "undefined")
    as [E|_]; [contradiction|].
  destruct (String.eqb_spec (typeof (Def.constructSchema d)) "function")
    as [E|_]; [contradiction|].
  reflexivity.
Qed.

Lemma invalid_interceptor_fails_witness :
  compileDef Atelier (Sample.world (LoaderCalls false VUndefined Sample.odd))
             "pet" [] (loadedState Sample.odd Sample.fresh)
  = mkRun (Throw (newError Sample.en (Msg.invalidInterceptor Atelier "pet")))
          (afterDefault "pet" (Def.mk VUndefined (VNum 1) "Pet")
                        (loadedState Sample.odd Sample.fresh)) []
  /\ mentions "pet" (Msg.invalidInterceptor Atelier "pet").
Proof.
  apply (invalid_interceptor_fails
           Atelier (Sample.world (LoaderCalls false VUndefined Sample.odd))
           "pet" [] (loadedState Sample.odd Sample.fresh)
           (Def.mk VUndefined (VNum 1) "Pet"));
    [reflexivity | reflexivity | discriminate | discriminate].
Defined.

(** X17.  [sails.mongoose] is set before anything can fail: it is there
    after every run, whatever the callback was called with. *)
Theorem mongoose_is_exposed_on_every_run
    (ver : version) (w : World) (cfg : Config) (st : State) :
  mongooseSet (final (initialize ver w cfg st)) = true.
Proof.
  unfold initialize. run.
  set (st1 := mkState true (models st) (global st) (modules st) false).
  assert (Hflag1 : hasAlreadyTriggeredCallback st1 = false) by reflexivity.
  destruct (connect w (uri cfg) (connectionOpts cfg)) as [e|]; run.
  { rewrite (cb_fresh _ _ _ st1 Hflag1). run. reflexivity. }
  destruct (loadModels w) as [e|sync err mods]; run.
  { rewrite (cb_fresh _ _ _ st1 Hflag1). run. reflexivity. }
  unfold modulesLoaded. run.
  change (withModules mods st1) with (loadedState mods st).
  assert (Hflag2 : hasAlreadyTriggeredCallback (loadedState mods st) = false)
    by reflexivity.
  destruct (truthy err); run.
  { rewrite (cb_fresh _ _ _ _ Hflag2). run.
    destruct (external w err) as [e|]; run; [|reflexivity].
    destruct sync; run; rewrite ?cb_tripped by reflexivity; run; reflexivity. }
  pose proof (loadedBody_keeps_flag ver w cfg (loadedState mods st)) as Hkeep.
  pose proof (loadedBody_keeps_mongoose ver w cfg (loadedState mods st)) as Hmg.
  destruct (loadedBody ver w cfg (loadedState mods st)) as [o s1 e1]; run.
  assert (Hs1 : hasAlreadyTriggeredCallback s1 = false) by exact Hkeep.
  destruct o as [[]|t]; run;
    rewrite (cb_fresh _ _ _ s1 Hs1); run;
    (destruct (external w _) as [e|]; run;
     [ rewrite ?cb_tripped by reflexivity; destruct (truthy e) eqn:He; run;
       destruct sync; run; rewrite ?cb_tripped by reflexivity;
       rewrite ?He; run
     | ]);
    exact Hmg.
Qed.

(** ** The defaults *)

(** X18.  The hook's defaults read [sails.config.custom.mongo.connectionUri]
    when the hook is built: they exist only if [sails.config.custom] and
    its [mongo] are there (neither [undefined] nor [null]), and their [uri]
    is then what [connectionUri] holds. *)
Theorem defaults_need_custom_mongo
    (ver : version) (en : Engine) (custom : value) (d : Defaults) :
  defaults ver en custom = Ok d ->
  custom <> VUndefined /\ custom <> VNull /\
  exists mongo,
    getProp en custom "mongo" = Ok mongo /\
    mongo <> VUndefined /\ mongo <> VNull /\
    getProp en mongo "connectionUri" = Ok (defaultUri d).
Proof.
  unfold defaults. intros Hd.
  split; [intros ->; discriminate Hd|].
  split; [intros ->; discriminate Hd|].
  destruct (getProp en custom "mongo") as [mongo|t]; [|discriminate Hd].
  exists mongo. split; [reflexivity|]. cbn [obind] in Hd.
  split; [intros ->; discriminate Hd|].
  split; [intros ->; discriminate Hd|].
  destruct (getProp en mongo "connectionUri") as [u|t]; [|discriminate Hd].
  cbn [obind] in Hd. injection Hd as <-. now destruct ver.
Qed.

Lemma defaults_need_custom_mongo_witness :
  Sample.customConfig <> VUndefined /\ Sample.customConfig <> VNull /\
  exists mongo,
    getProp Sample.en Sample.customConfig "mongo" = Ok mongo /\
    mongo <> VUndefined /\ mongo <> VNull /\
    getProp Sample.en mongo "connectionUri" = Ok (VStr "mongodb://localhost/app").
Proof.
  exact (defaults_need_custom_mongo
           Atelier Sample.en Sample.customConfig
           (mkDefaults VUndefined (VStr "mongodb://localhost/app") (VDict []))
           eq_refl).
Defined.

(** X19.  With nothing but the defaults in [sails.config], [configure]
    passes exactly when [connectionUri] is a string, and complains about
    the URI otherwise; and the models are exposed as globals by the
    defaults of [index.js], not by those of the other version. *)
Theorem configure_on_the_defaults
    (ver : version) (en : Engine) (custom : value) (d : Defaults) (paths : value) :
  defaults ver en custom = Ok d ->
  configure ver en (fromDefaults d paths)
  = (if seq (typeof (defaultUri d)) "string" then Ok tt
     else Throw (newError en (Msg.uri ver)))
  /\ wantsGlobals en (fromDefaults d paths)
     = Ok match ver with Classic => true | Atelier => false end.
Proof.
  unfold defaults. intros Hd.
  destruct (getProp en custom "mongo") as [mongo|t]; [|discriminate Hd].
  cbn [obind] in Hd.
  destruct (getProp en mongo "connectionUri") as [u|t]; [|discriminate Hd].
  cbn [obind] in Hd. injection Hd as <-.
  destruct ver; unfold configure, wantsGlobals, fromDefaults, seq, sne;
    cbn; destruct (String.eqb (typeof u) "string"); split; reflexivity.
Qed.

Lemma configure_on_the_defaults_witness :
  configure Classic Sample.en
    (fromDefaults
       (mkDefaults (VDict [("models", VBool true)])
                   (VStr "mongodb://localhost/app")
                   (VDict [("useNewUrlParser", VBool true);
                           ("useUnifiedTopology", VBool true);
                           ("useCreateIndex", VBool true)]))
       (VStr "api/models"))
  = Ok tt
  /\ wantsGlobals Sample.en
       (fromDefaults
          (mkDefaults (VDict [("models", VBool true)])
                      (VStr "mongodb://localhost/app")
                      (VDict [("useNewUrlParser", VBool true);
                              ("useUnifiedTopology", VBool true);
                              ("useCreateIndex", VBool true)]))
          (VStr "api/models"))
     = Ok true.
Proof.
  exact (configure_on_the_defaults
           Classic Sample.en Sample.customConfig _ (VStr "api/models") eq_refl).
Defined.

(** X20.  [configure] looks at [connectionOpts] through [typeof] and
    [Array.isArray] only: two values these do not tell apart fare alike.
    So [null], an object that is no array, is accepted where the empty
    dictionary is. *)
Theorem configure_reads_the_options_by_type
    (ver : version) (en : Engine) (g u p o o' : value) :
  typeof o = typeof o' ->
  isArray o = isArray o' ->
  configure ver en (mkConfig g u o p) = configure ver en (mkConfig g u o' p).
Proof.
  intros Htype Harray. unfold configure.
  cbn [globals uri connectionOpts]. now rewrite Htype, Harray.
Qed.

Lemma configure_reads_the_options_by_type_witness :
  configure Atelier Sample.en
    (mkConfig VUndefined (VStr "mongodb://localhost/app") VNull (VStr "api/models"))
  = configure Atelier Sample.en
      (mkConfig VUndefined (VStr "mongodb://localhost/app") (VDict [])
                (VStr "api/models")).
Proof.
  apply (configure_reads_the_options_by_type
           Atelier Sample.en VUndefined (VStr "mongodb://localhost/app")
           (VStr "api/models") VNull (VDict [])); reflexivity.
Defined.

(** ** From a definition to its model *)

Section Building.
Variables (ver : version) (w : World) (cfg : Config).

Lemma compiledBy_defaulted (d : Def.t) (v : value) :
  compiledBy w (defaulted d) v = compiledBy w d v.
Proof.
  unfold compiledBy. now rewrite defaulted_idem, constructSchema_defaulted.
Qed.

Lemma compileDef_compiles
    (identity : string) (schemas schemas' : Dict.t value) (st : State) :
  out (compileDef ver w identity schemas st) = Ok schemas' ->
  exists d v,
    Dict.get identity (modules st) = Some d /\
    compiledBy w d v /\
    schemas' = Dict.assign identity v schemas.
Proof.
  rewrite compileDef_run.
  destruct (Dict.get identity (modules st)) as [d|]; [|discriminate].
  cbv zeta. intros Hout. exists d. unfold compiledBy.
  destruct (schemaRejected _); [discriminate|].
  destruct (seq (typeof (Def.constructSchema d)) "undefined").
  - cbn [out] in Hout.
    destruct (newSchema w (Def.schema (defaulted d))) as [n|e];
      [|discriminate].
    injection Hout as <-. exists (VSchema n). eauto.
  - destruct (seq (typeof (Def.constructSchema d)) "function"); [|discriminate].
    cbn [out] in Hout.
    destruct (interceptor w (Def.constructSchema d) (Def.schema (defaulted d)))
      as [v|e]; [|discriminate].
    injection Hout as <-. exists v. auto.
Qed.

Lemma compileSchemas_compiles
    (identities : list string) (schemas schemas' : Dict.t value) (st : State) :
  out (compileSchemas ver w identities schemas st) = Ok schemas' ->
  (forall k d,
     In k identities -> k <> Dict.proto -> Dict.get k (modules st) = Some d ->
     exists v, Dict.get k schemas' = Some v /\ compiledBy w d v) /\
  (forall k, ~ In k identities -> Dict.get k schemas' = Dict.get k schemas) /\
  (List.NoDup (Dict.keys schemas) -> List.NoDup (Dict.keys schemas')).
Proof.
  revert schemas st.
  induction identities as [|identity rest IH]; intros schemas st.
  - cbn [compileSchemas]. run. intros [= <-].
    split; [intros k d []|]. split; [reflexivity | auto].
  - cbn [compileSchemas]. run.
    pose proof (compileDef_compiles identity schemas) as Hcomp.
    pose proof (compileDef_final ver w identity schemas st) as Hfin.
    specialize Hcomp with (st := st).
    destruct (compileDef ver w identity schemas st) as [[s1|t] st1 e1];
      run; [|discriminate].
    destruct (Hcomp s1 eq_refl) as (d0 & v0 & Hget0 & Hby0 & ->).
    rewrite Hget0 in Hfin. cbn [final] in Hfin. subst st1.
    intros Hout. destruct (IH _ _ Hout) as (IH1 & IH2 & IH3).
    pose proof (afterDefault_modules identity) as Hmods.
    split; [|split].
    + intros k d Hin Hown Hget.
      destruct (in_dec String.string_dec k rest) as [Hr|Hnr].
      * specialize (Hmods k d0 st Hget0).
        destruct (String.eqb_spec identity k) as [Heq|Hne].
        -- subst k. assert (d = d0) as -> by congruence.
           destruct (IH1 identity (defaulted d0) Hr Hown Hmods) as (v & Hv & Hby).
           rewrite compiledBy_defaulted in Hby. eauto.
        -- apply (IH1 k d Hr Hown). now rewrite Hmods.
      * destruct Hin as [<-|Hin]; [|contradiction].
        assert (d = d0) as -> by congruence.
        exists v0. split; [|exact Hby0].
        rewrite (IH2 identity Hnr). now apply get_assign_same.
    + intros k Hnotin.
      rewrite IH2 by (intros Hin; apply Hnotin; now right).
      apply get_assign_other. intros ->. apply Hnotin. now left.
    + intros Hnd. apply IH3. now apply assign_NoDup.
Qed.

(** What the second loop leaves in [sails.models] when it runs to its
    end over a dictionary of compiled schemas. *)
Lemma registerModels_builds
    (schemas : Dict.t value) (st : State) (reg0 : Dict.t Model.t) :
  List.NoDup (Dict.keys schemas) ->
  ~ In Dict.proto (Dict.keys schemas) ->
  models st = Some reg0 ->
  out (registerModels w schemas st) = Ok tt ->
  exists reg1,
    models (final (registerModels w schemas st)) = Some reg1 /\
    (forall k v,
       In (k, v) schemas ->
       exists d c,
         Dict.get k (modules st) = Some d /\
         newModel w (Def.globalId d) v = Returns c /\
         Dict.get k reg1 = Some (Model.mk c (Def.globalId d) k)) /\
    (forall k, ~ In k (Dict.keys schemas) -> Dict.get k reg1 = Dict.get k reg0).
Proof.
  revert st reg0.
  induction schemas as [|[identity s] rest IH]; intros st reg0 Hnd Hproto Hreg.
  - cbn [registerModels]. run. intros _. exists reg0.
    split; [exact Hreg|]. split; [intros k v []|reflexivity].
  - cbn [Dict.keys map fst] in Hnd, Hproto.
    apply List.NoDup_cons_iff in Hnd as [Hfresh Hnd].
    assert (Hown : identity <> Dict.proto) by (intros Heq; apply Hproto; now left).
    assert (Hrest : ~ In Dict.proto (Dict.keys rest))
      by (intros Hin; apply Hproto; now right).
    cbn [registerModels]. run. rewrite registerModel_run.
    destruct (Dict.get identity (modules st)) as [def|] eqn:Hdef; [|discriminate].
    destruct (newModel w (Def.globalId def) s) as [c|e] eqn:Hnew; [|discriminate].
    run. rewrite Hreg. change (default [] (Some reg0)) with reg0.
    rewrite (assign_other identity) by exact Hown.
    set (m := Model.mk c (Def.globalId def) identity).
    set (st1 := mkState _ _ _ _ _).
    intros Hout.
    destruct (IH st1 (Dict.set identity m reg0) Hnd Hrest eq_refl Hout)
      as (reg1 & Hfinal & Hbuilt & Hframe).
    exists reg1. split; [exact Hfinal|]. split.
    + intros k v [Heq|Hin].
      * injection Heq as <- <-. exists def, c.
        split; [exact Hdef|]. split; [exact Hnew|].
        rewrite (Hframe identity Hfresh). apply get_set_same.
      * exact (Hbuilt k v Hin).
    + intros k Hnotin. cbn [Dict.keys map fst] in Hnotin.
      rewrite Hframe by (intros Hin; apply Hnotin; now right).
      apply get_set_other. intros ->. apply Hnotin. now left.
Qed.

Lemma loadedBody_builds (st : State) :
  out (loadedBody ver w cfg st) = Ok tt ->
  exists reg,
    models (final (loadedBody ver w cfg st)) = Some reg /\
    forall k d,
      Dict.get k (modules st) = Some d ->
      k <> Dict.proto ->
      exists v c,
        compiledBy w d v /\
        newModel w (Def.globalId d) v = Returns c /\
        Dict.get k reg = Some (Model.mk c (Def.globalId d) k).
Proof.
  unfold loadedBody. run.
  pose proof (compileSchemas_compiles (Dict.keys (modules st)) []) as Hcomp.
  pose proof (compileSchemas_defaults ver w (Dict.keys (modules st)) []) as Hdef.
  pose proof (compileSchemas_proto_out ver w (Dict.keys (modules st)) []) as Hown.
  specialize Hcomp with (st := st). specialize Hdef with (st := st).
  specialize Hown with (st := st).
  destruct (compileSchemas ver w (Dict.keys (modules st)) [] st)
    as [[schemas|t] s1 e1]; run; [|discriminate].
  destruct (Hcomp schemas eq_refl) as (Hby & _ & Hnd).
  destruct (Hdef schemas eq_refl) as (Hlast & _). cbn [final] in Hlast.
  specialize (Hown schemas eq_refl (fun H : In Dict.proto [] => H)).
  match goal with
  | |- context [registerModels w schemas ?s] => set (s2 := s) in *
  end.
  pose proof (registerModels_builds schemas s2 [] (Hnd (List.NoDup_nil _))
                Hown eq_refl) as Hreg.
  destruct (registerModels w schemas s2) as [[[]|t] s3 e3]; run; [|discriminate].
  destruct (Hreg eq_refl) as (reg & Hmodels & Hbuilt & _). cbn [final] in Hmodels.
  intros Hout. exists reg. split.
  - rewrite exposeGlobals_run in Hout |- *.
    destruct (wantsGlobals (engine w) cfg) as [[]|v]; [| exact Hmodels |].
    + now rewrite (proj2 (proj2 (exposeModels_run _ s3))).
    + discriminate Hout.
  - intros k d Hget Hne.
    pose proof (key_of_In _ _ _ (get_In _ _ _ Hget)) as Hkey.
    destruct (Hby k d Hkey Hne Hget) as (v & Hv & Hcompiled).
    destruct (Hbuilt k v (get_In _ _ _ Hv)) as (d' & c & Hd' & Hnew & Hentry).
    destruct (Hlast k d Hkey Hget) as [_ Hfilled].
    subst s2. cbn [modules] in Hd'. rewrite Hfilled in Hd'.
    injection Hd' as <-.
    assert (Hname : Def.globalId (defaulted d) = Def.globalId d)
      by (unfold defaulted; now destruct (seq _ _)).
    rewrite Hname in *. now exists v, c.
Qed.

End Building.

(** X21.  After a run that calls back without an error, the entry of
    [sails.models] for each identity other than [__proto__] is the
    constructor [mongoose.model] returned for that definition's display
    name and its compiled schema, carrying that display name and that
    identity; and the compiled schema is what [new Schema], or the
    definition's [constructSchema], made of its dictionary. *)
Theorem every_model_is_built_from_its_compiled_schema
    (ver : version) (w : World) (cfg : Config) (st : State)
    (sync : bool) (err : value) (mods : Dict.t Def.t) :
  loadModels w = LoaderCalls sync err mods ->
  callbacks (events (initialize ver w cfg st)) = [VUndefined] ->
  exists registry,
    models (final (initialize ver w cfg st)) = Some registry /\
    forall identity d,
      Dict.get identity mods = Some d ->
      identity <> Dict.proto ->
      exists schemaObj c,
        compiledBy w d schemaObj /\
        newModel w (Def.globalId d) schemaObj = Returns c /\
        Dict.get identity registry = Some (Model.mk c (Def.globalId d) identity).
Proof.
  intros Hl Hok.
  destruct (success_means_body_ok ver w cfg st Hok)
    as (sync' & err' & mods' & Hl' & Hout & Hfinal).
  rewrite Hl in Hl'. injection Hl' as <- <- <-.
  destruct (loadedBody_builds ver w cfg (loadedState mods st) Hout)
    as (reg & Hmodels & Hbuilt).
  exists reg. rewrite Hfinal. cbn [withFlag models]. auto.
Qed.

Lemma every_model_is_built_from_its_compiled_schema_witness :
  exists registry,
    models (final (initialize Atelier
                     (Sample.world (LoaderCalls false VUndefined Sample.two))
                     (Sample.cfg Sample.hiding) Sample.fresh)) = Some registry /\
    exists schemaObj c,
      compiledBy (Sample.world (LoaderCalls false VUndefined Sample.two))
                 (Def.mk VUndefined VUndefined "Beta") schemaObj /\
      newModel (Sample.world (LoaderCalls false VUndefined Sample.two))
               "Beta" schemaObj = Returns c /\
      Dict.get "beta" registry = Some (Model.mk c "Beta" "beta").
Proof.
  destruct (every_model_is_built_from_its_compiled_schema
              Atelier (Sample.world (LoaderCalls false VUndefined Sample.two))
              (Sample.cfg Sample.hiding) Sample.fresh
              false VUndefined Sample.two eq_refl eq_refl)
    as (registry & Hmodels & Hbuilt).
  exists registry. split; [exact Hmodels|].
  apply (Hbuilt "beta" (Def.mk VUndefined VUndefined "Beta") eq_refl).
  discriminate.
Defined.

(** ** What [configure] accepts *)

(** X22.  [configure] returns exactly for the configurations whose URI is
    a string and whose connection options are an object that is no array
    and, in [index.js], whose [globals], if an object, has a boolean
    [models]; every other configuration makes it throw. *)
Theorem configure_accepts_exactly_the_well_formed
    (ver : version) (en : Engine) (cfg : Config) :
  configure ver en cfg = Ok tt
  <-> (typeof (uri cfg) = "string"
       /\ typeof (connectionOpts cfg) = "object"
       /\ isArray (connectionOpts cfg) = false
       /\ (ver = Classic ->
           typeof (globals cfg) = "object" ->
           exists m, getProp en (globals cfg) "models" = Ok m
                     /\ typeof m = "boolean")).
Proof.
  assert (Hrest :
    (if sne (typeof (uri cfg)) "string" then Throw (newError en (Msg.uri ver))
     else if sne (typeof (connectionOpts cfg)) "object"
             || isArray (connectionOpts cfg)
          then Throw (newError en (Msg.connectionOpts ver))
          else Ok tt) = Ok tt
    <-> typeof (uri cfg) = "string"
        /\ typeof (connectionOpts cfg) = "object"
        /\ isArray (connectionOpts cfg) = false).
  { unfold sne.
    destruct (String.eqb_spec (typeof (uri cfg)) "string") as [Hu|Hu];
      cbn [negb]; [|split; [discriminate | tauto]].
    destruct (String.eqb_spec (typeof (connectionOpts cfg)) "object") as [Ho|Ho];
      cbn [negb orb]; [|split; [discriminate | tauto]].
    destruct (isArray (connectionOpts cfg));
      split; try discriminate; try tauto.
    intros (_ & _ & H). discriminate H. }
  destruct ver; unfold configure; cbv zeta.
  - unfold seq.
    destruct (String.eqb_spec (typeof (globals cfg)) "object") as [Hg|Hg].
    + destruct (getProp en (globals cfg) "models") as [m|t]; cbn [obind].
      * unfold sne at 1.
        destruct (String.eqb_spec (typeof m) "boolean") as [Hm|Hm]; cbn [negb].
        -- rewrite Hrest. split; [|tauto].
           intros (Hu & Ho & Ha). repeat (split; [assumption|]).
           intros _ _. now exists m.
        -- split; [discriminate|].
           intros (_ & _ & _ & H). destruct (H eq_refl Hg) as (m' & [= <-] & Hb).
           contradiction.
      * split; [discriminate|].
        intros (_ & _ & _ & H). destruct (H eq_refl Hg) as (m' & Hm' & _).
        discriminate Hm'.
    + cbn [obind]. rewrite Hrest. split; [|tauto].
      intros (Hu & Ho & Ha). repeat (split; [assumption|]).
      intros _ Habs. contradiction.
  - rewrite Hrest. split; [|tauto].
    intros (Hu & Ho & Ha). repeat (split; [assumption|]). discriminate.
Qed.

(** ** Display names that are shared *)





(** X24.  [sails.models] is built anew: after a run that calls back
    without an error it has an entry for the identities of the loader's
    dictionary other than [__proto__], and for nothing else, whatever it
    held before. *)
Theorem the_registry_holds_the_loaded_models_only
    (ver : version) (w : World) (cfg : Config) (st : State)
    (sync : bool) (err : value) (mods : Dict.t Def.t) :
  loadModels w = LoaderCalls sync err mods ->
  callbacks (events (initialize ver w cfg st)) = [VUndefined] ->
  exists registry,
    models (final (initialize ver w cfg st)) = Some registry /\
    forall identity,
      is_Some (Dict.get identity registry)
      <-> (is_Some (Dict.get identity mods) /\ identity <> Dict.proto).
Proof.
  intros Hl Hok.
  destruct (success_means_body_ok ver w cfg st Hok)
    as (sync' & err' & mods' & Hl' & Hout & Hfinal).
  rewrite Hl in Hl'. injection Hl' as <- <- <-.
  destruct (loadedBody_success ver w cfg (loadedState mods st) Hout)
    as (reg & Hmodels & Hcover & Hgood & [_ Hclean] & _).
  exists reg. rewrite Hfinal. cbn [withFlag models].
  split; [exact Hmodels|].
  intros identity. split.
  - intros [m Hm]. split.
    + destruct (Hgood identity m Hm) as (_ & d & Hd & _). now exists d.
    + intros ->. apply Hclean. exact (key_of_In _ _ _ (get_In _ _ _ Hm)).
  - intros [[d Hd] Hown]. apply Hcover; [|exact Hown].
    exact (key_of_In _ _ _ (get_In _ _ _ Hd)).
Qed.

Lemma the_registry_holds_the_loaded_models_only_witness :
  exists registry,
    models (final (initialize Atelier
                     (Sample.world (LoaderCalls false VUndefined Sample.two))
                     (Sample.cfg Sample.hiding)
                     (mkState false (Some [("old", Model.mk 1 "Old" "old")])
                              ∅ [] false)))
    = Some registry /\
    (is_Some (Dict.get "old" registry)
     <-> (is_Some (Dict.get "old" Sample.two) /\ "old" <> Dict.proto)).
Proof.
  destruct (the_registry_holds_the_loaded_models_only
              Atelier (Sample.world (LoaderCalls false VUndefined Sample.two))
              (Sample.cfg Sample.hiding)
              (mkState false (Some [("old", Model.mk 1 "Old" "old")]) ∅ [] false)
              false VUndefined Sample.two eq_refl eq_refl)
    as (registry & Hmodels & Hkeys).
  exists registry. split; [exact Hmodels | exact (Hkeys "old")].
Defined.

(** ** The order of compilation *)

Lemma compiledIds_app (es es' : list event) :
  compiledIds (es ++ es') = compiledIds es ++ compiledIds es'.
Proof.
  induction es as [|e es IH]; [reflexivity|].
  destruct e; cbn [app compiledIds]; now rewrite ?IH.
Qed.

Lemma compiledIds_nil (es : list event) :
  forallb (fun e => negb (compiling e)) es = true -> compiledIds es = [].
Proof.
  induction es as [|e es IH]; [reflexivity|].
  cbn [forallb]. intros H. apply andb_true_iff in H as [He Hes].
  destruct e; try discriminate He; cbn [compiledIds]; now apply IH.
Qed.

Section Order.
Variables (ver : version) (w : World) (cfg : Config).

Lemma compileDef_ids (identity : string) (schemas : Dict.t value) (st : State) :
  compiledIds (events (compileDef ver w identity schemas st)) = [identity]
  \/ (compiledIds (events (compileDef ver w identity schemas st)) = [] /\
      exists t, out (compileDef ver w identity schemas st) = Throw t).
Proof.
  rewrite compileDef_run.
  destruct (Dict.get identity (modules st)) as [d|]; [|right; eauto].
  cbv zeta.
  destruct (schemaRejected _); [right; eauto|].
  destruct (seq (typeof (Def.constructSchema d)) "undefined"); [now left|].
  destruct (seq (typeof (Def.constructSchema d)) "function");
    [now left | right; eauto].
Qed.

Lemma compileSchemas_order
    (identities : list string) (schemas : Dict.t value) (st : State) :
  exists rest,
    identities
    = compiledIds (events (compileSchemas ver w identities schemas st)) ++ rest /\
    (forall schemas',
       out (compileSchemas ver w identities schemas st) = Ok schemas' ->
       rest = []).
Proof.
  revert schemas st.
  induction identities as [|identity ids IH]; intros schemas st.
  - exists []. split; [reflexivity | auto].
  - cbn [compileSchemas]. run.
    pose proof (compileDef_ids identity schemas st) as Hdef.
    destruct (compileDef ver w identity schemas st) as [[s1|t] st1 e1]; run.
    + destruct Hdef as [Hone|(_ & t & Ht)]; [|discriminate Ht].
      cbn [events] in Hone.
      destruct (IH s1 st1) as (rest & Hids & Hdone).
      exists rest. rewrite compiledIds_app, Hone. cbn [app].
      split; [now rewrite <- Hids | exact Hdone].
    + cbn [events] in Hdef. destruct Hdef as [Hone|(Hnone & _)].
      * exists ids. rewrite Hone. split; [reflexivity | discriminate].
      * exists (identity :: ids). rewrite Hnone. split; [reflexivity | discriminate].
Qed.

Lemma loadedBody_order (st : State) :
  exists rest,
    Dict.keys (modules st)
    = compiledIds (events (loadedBody ver w cfg st)) ++ rest /\
    (out (loadedBody ver w cfg st) = Ok tt -> rest = []).
Proof.
  unfold loadedBody. run.
  destruct (compileSchemas_order (Dict.keys (modules st)) [] st)
    as (rest & Hids & Hdone).
  destruct (compileSchemas ver w (Dict.keys (modules st)) [] st)
    as [[schemas|t] s1 e1]; run.
  - exists rest. rewrite compiledIds_app.
    rewrite (compiledIds_nil (events _)).
    + rewrite app_nil_r. split; [exact Hids|]. intros _. now apply (Hdone schemas).
    + pose proof (registration_emits w cfg schemas s1) as Hemit.
      revert Hemit. apply forallb_weaken. intros e. now destruct e.
  - exists rest. split; [exact Hids | discriminate].
Qed.

End Order.

(** X25.  The definitions are compiled in the order in which the loader's
    dictionary enumerates them, each at most once, and the loop stops at
    the first that fails: the identities compiled in a run are the first
    so many keys of the dictionary, and all of them when the run calls
    back without an error. *)
Theorem definitions_are_compiled_in_order
    (ver : version) (w : World) (cfg : Config) (st : State)
    (sync : bool) (err : value) (mods : Dict.t Def.t) :
  loadModels w = LoaderCalls sync err mods ->
  exists rest,
    Dict.keys mods = compiledIds (events (initialize ver w cfg st)) ++ rest /\
    (callbacks (events (initialize ver w cfg st)) = [VUndefined] -> rest = []).
Proof.
  intros Hl.
  destruct (initialize_paths ver w cfg st)
    as [(Hquiet & _ & _ & v & Hv & Hne)
       | (sync' & err' & mods' & tail & _ & Hl' & _ & Hev & Htail & _)].
  - exists (Dict.keys mods). rewrite compiledIds_nil.
    + split; [reflexivity|]. rewrite Hv. intros [= ->]. now contradiction Hne.
    + revert Hquiet. apply forallb_weaken. intros e. now destruct e.
  - rewrite Hl in Hl'. injection Hl' as <- <- <-.
    destruct (loadedBody_order ver w cfg (loadedState mods st))
      as (rest & Hids & Hdone).
    cbn [loadedState modules] in Hids.
    exists rest. split.
    + rewrite Hev, !compiledIds_app.
      change (compiledIds (upToLoading cfg)) with (@nil string).
      cbn [app compiledIds].
      rewrite (compiledIds_nil tail).
      * now rewrite app_nil_r.
      * revert Htail. apply forallb_weaken. intros e. now destruct e.
    + intros Hok. apply Hdone.
      destruct (success_means_body_ok ver w cfg st Hok)
        as (sync' & err' & mods' & Hl' & Hout & _).
      rewrite Hl in Hl'. injection Hl' as <- <- <-. exact Hout.
Qed.

Lemma definitions_are_compiled_in_order_witness :
  exists rest,
    Dict.keys Sample.two
    = compiledIds (events (initialize Classic
                             (Sample.world (LoaderCalls false VUndefined Sample.two))
                             (Sample.cfg Sample.exposing) Sample.fresh))
      ++ rest /\
    (callbacks (events (initialize Classic
                          (Sample.world (LoaderCalls false VUndefined Sample.two))
                          (Sample.cfg Sample.exposing) Sample.fresh))
     = [VUndefined] -> rest = []).
Proof.
  exact (definitions_are_compiled_in_order
           Classic (Sample.world (LoaderCalls false VUndefined Sample.two))
           (Sample.cfg Sample.exposing) Sample.fresh
           false VUndefined Sample.two eq_refl).
Defined.

(** ** An exception of the callback that tests false *)

(** X26.  When every step has succeeded and the external callback, called
    without an error, throws a value that tests false ([undefined], [null],
    [0], the empty string, [false]), the [catch] of [modulesLoaded] hands
    it to [cb], and the guard takes it for a call without an error: it
    logs its warning and returns.  [initialize] settles normally and the
    exception is lost, whether the loader called back at once or later. *)
Theorem a_falsy_exception_of_the_callback_is_dropped
    (ver : version) (w : World) (cfg : Config) (st : State)
    (sync : bool) (err : value) (mods : Dict.t Def.t) (t : value) :
  connect w (uri cfg) (connectionOpts cfg) = None ->
  loadModels w = LoaderCalls sync err mods ->
  truthy err = false ->
  out (loadedBody ver w cfg (loadedState mods st)) = Ok tt ->
  external w VUndefined = Some t ->
  truthy t = false ->
  out (initialize ver w cfg st) = Ok tt
  /\ events (initialize ver w cfg st)
     = upToLoading cfg ++ events (loadedBody ver w cfg (loadedState mods st))
         ++ [CalledBack VUndefined; LogWarn (Msg.calledAgain ver)].
Proof.
  intros Hc Hl Herr Hout Hx Ht. unfold initialize. run. rewrite Hc. run.
  rewrite Hl. run. unfold modulesLoaded. run.
  change (withModules mods (mkState true (models st) (global st) (modules st) false))
    with (loadedState mods st).
  rewrite Herr. run.
  pose proof (loadedBody_keeps_flag ver w cfg (loadedState mods st)) as Hkeep.
  destruct (loadedBody ver w cfg (loadedState mods st)) as [o s1 e1].
  cbn [out] in Hout. subst o. run.
  assert (Hs1 : hasAlreadyTriggeredCallback s1 = false) by exact Hkeep.
  rewrite (cb_fresh _ _ _ s1 Hs1). run. rewrite Hx. run.
  rewrite cb_tripped by reflexivity. rewrite Ht. run.
  split; [reflexivity|].
  unfold upToLoading. cbn [app]. now rewrite <- app_assoc.
Qed.

Lemma a_falsy_exception_of_the_callback_is_dropped_witness :
  out (initialize Classic
         (mkWorld Sample.en (fun _ _ => None)
                  (LoaderCalls true VUndefined Sample.two)
                  (fun _ => Returns 7) (fun _ _ => Throws Sample.boom)
                  (fun _ _ => Returns 3) (fun _ => Some VNull))
         (Sample.cfg Sample.hiding) Sample.fresh) = Ok tt
  /\ events (initialize Classic
               (mkWorld Sample.en (fun _ _ => None)
                        (LoaderCalls true VUndefined Sample.two)
                        (fun _ => Returns 7) (fun _ _ => Throws Sample.boom)
                        (fun _ _ => Returns 3) (fun _ => Some VNull))
               (Sample.cfg Sample.hiding) Sample.fresh)
     = upToLoading (Sample.cfg Sample.hiding)
       ++ events (loadedBody Classic
                    (mkWorld Sample.en (fun _ _ => None)
                             (LoaderCalls true VUndefined Sample.two)
                             (fun _ => Returns 7) (fun _ _ => Throws Sample.boom)
                             (fun _ _ => Returns 3) (fun _ => Some VNull))
                    (Sample.cfg Sample.hiding)
                    (loadedState Sample.two Sample.fresh))
       ++ [CalledBack VUndefined; LogWarn (Msg.calledAgain Classic)].
Proof.
  apply (a_falsy_exception_of_the_callback_is_dropped
           Classic
           (mkWorld Sample.en (fun _ _ => None)
                    (LoaderCalls true VUndefined Sample.two)
                    (fun _ => Returns 7) (fun _ _ => Throws Sample.boom)
                    (fun _ _ => Returns 3) (fun _ => Some VNull))
           (Sample.cfg Sample.hiding) Sample.fresh
           true VUndefined Sample.two VNull);
    reflexivity.
Defined.
